(** * MPCService: from game arguments to OneDocker command lines

    A shallow embedding of [fbpcs/private_computation/service/mpc/mpc.py]
    and the properties its design document states about it.

    - Python exceptions are values of [exn]; a call either returns or
      raises ([result]).
    - [convert_cmd_args_list] calls a method of an injected collaborator
      ([self.mpc_game_svc.build_onedocker_args]).  The collaborator may
      keep state of its own, so the method runs in a state-and-exception
      monad [M W] over an arbitrary world [W].
    - Which calls the collaborator received, and in which order, is
      observed with a recording double ([spy]) that wraps any collaborator
      and appends every call, with its outcome, to a log. *)

From stdpp Require Import base option list strings gmap.

Set Default Proof Using "Type".

(** ** Exceptions and results *)

Inductive exn : Type :=
| ValueError (msg : string)
| IndexError (msg : string)
| TypeError (msg : string)
| OtherError (cls msg : string).

Inductive result (A : Type) : Type :=
| Ok (a : A)
| Raise (e : exn).
Arguments Ok {A} a.
Arguments Raise {A} e.

Definition is_ok {A} (r : result A) : bool :=
  match r with Ok _ => true | Raise _ => false end.

#[global] Instance result_ret : MRet result := @Ok.
#[global] Instance result_bind : MBind result := λ A B f r,
  match r with Ok a => f a | Raise e => Raise e end.
#[global] Instance result_fmap : FMap result := λ A B f r,
  match r with Ok a => Ok (f a) | Raise e => Raise e end.

(** ** State and exceptions: the monad of a method call

    A raised exception keeps the world as it was when it was raised:
    what a collaborator did before stays done. *)

Definition M (W A : Type) : Type := W → result A * W.

Definition raise {W A} (e : exn) : M W A := λ w, (Raise e, w).

#[global] Instance M_ret {W} : MRet (M W) := λ A a w, (Ok a, w).
#[global] Instance M_bind {W} : MBind (M W) := λ A B f c w,
  match c w with
  | (Ok a, w') => f a w'
  | (Raise e, w') => (Raise e, w')
  end.
#[global] Instance M_fmap {W} : FMap (M W) := λ A B f c w,
  match c w with
  | (Ok a, w') => (Ok (f a), w')
  | (Raise e, w') => (Raise e, w')
  end.

(** ** Python's [str()], as used by the f-strings of the error messages *)

Class PyStr (A : Type) := py_str : A → string.
#[global] Hint Mode PyStr ! : typeclass_instances.

#[global] Instance str_PyStr : PyStr string := λ s, s.
(** [None] prints as [None]. *)
#[global] Instance option_PyStr `{PyStr A} : PyStr (option A) := λ o,
  match o with Some a => py_str a | None => "None" end.

(** ** Truthiness, [len] and indexing of an [Optional[List[...]]] *)

(** [not x]: true for [None] and for the empty list. *)
Definition py_not {A} (x : option (list A)) : bool :=
  match x with
  | None | Some [] => true
  | Some (_ :: _) => false
  end.

Definition py_len {W A} (x : option (list A)) : M W nat :=
  match x with
  | Some l => mret (length l)
  | None => raise (TypeError "object of type 'NoneType' has no len()")
  end.

(** [l[i]] for [i >= 0]: out of range raises. *)
Definition py_getitem {W A} (l : list A) (i : nat) : M W A :=
  match l !! i with
  | Some x => mret x
  | None => raise (IndexError "list index out of range")
  end.

(** [for i in indices: s = body(i, s)] *)
Fixpoint for_each {W S} (body : nat → S → M W S) (indices : list nat) (s : S)
  : M W S :=
  match indices with
  | [] => mret s
  | i :: rest => s' ← body i s; for_each body rest s'
  end.

(** ** The enumerations *)

(** Modelled from the spec: [MPCParty] is declared in
    [fbpcs/private_computation/service/mpc/entity/mpc_instance.py]; the
    design document gives it as the closed enumeration {Server, Client}. *)
Inductive MPCParty : Type := SERVER | CLIENT.

#[global] Instance MPCParty_eq_dec : EqDecision MPCParty.
Proof. solve_decision. Defined.

(** Modelled from the spec: [PrivateComputationRole] is declared in
    [fbpcs/private_computation/entity/private_computation_instance.py]; the
    design document gives it as the closed enumeration
    {Publisher, Partner}. *)
Inductive PrivateComputationRole : Type := PUBLISHER | PARTNER.

(** What a caller can actually pass where a [PrivateComputationRole] is
    expected: a member of the enumeration, or any other object, of which
    only its [str()] is ever looked at. *)
Inductive role_arg : Type :=
| Role (r : PrivateComputationRole)
| NotARole (str : string).

#[global] Instance PrivateComputationRole_PyStr : PyStr PrivateComputationRole :=
  λ r, match r with
       | PUBLISHER => "PrivateComputationRole.PUBLISHER"
       | PARTNER => "PrivateComputationRole.PARTNER"
       end.
#[global] Instance role_arg_PyStr : PyStr role_arg := λ a,
  match a with Role r => py_str r | NotARole s => s end.

(** ** [map_private_computation_role_to_mpc_party] *)

Definition map_private_computation_role_to_mpc_party
  (private_computation_role : role_arg) : result MPCParty :=
  match private_computation_role with
  | Role PUBLISHER => Ok SERVER
  | Role PARTNER => Ok CLIENT
  | _ =>
      Raise (ValueError
        ("No mpc party defined for " +:+ py_str private_computation_role))
  end.

(** ** The game service and [convert_cmd_args_list] *)

(** Modelled from the spec: [MPCGameService] is declared in
    [fbpcs/private_computation/service/mpc/mpc_game.py].  Its method takes
    the game name, the party, an optional address and the keyword
    arguments of one container, and returns a package name and a command
    line, both strings, or raises.  The method is entered only once the
    call expression has put its keyword arguments together, see
    [repeated_keyword]. *)
Record MPCGameService (Value W : Type) : Type := {
  build_onedocker_args :
    string → MPCParty → option string → gmap string Value →
    M W (string * string)
}.
Arguments build_onedocker_args {Value W} _ _ _ _ _.

(** *** The keyword arguments of the call

    The call at lines 136-141 names three arguments itself and unpacks
    the dictionary of the container after them ([**game_arg]).  A key of
    the dictionary that repeats one of the three makes the call
    expression raise [TypeError] before the method is entered. *)

Definition call_keywords : list string :=
  ["game_name"; "mpc_party"; "server_ip"].

(** A key of [game_arg] that repeats a keyword of the call, if there is
    one.  Python reports the first such key in the order of the
    dictionary; a [gmap] keeps no order, so with more than one such key
    this is the first in the order of [call_keywords]. *)
Definition repeated_keyword {Value} (game_arg : gmap string Value)
  : option string :=
  head (filter (λ k, is_Some (game_arg !! k)) call_keywords).

(** The exception of the call expression (the text is the one of CPython
    3.8 and 3.9; later versions put the qualified name of the method
    first). *)
Definition multiple_values (k : string) : exn :=
  TypeError ("build_onedocker_args() got multiple values for keyword argument '"
             +:+ k +:+ "'").

Section convert.
Context {Value W : Type}.
Variable mpc_game_svc : MPCGameService Value W.

(** One round of the loop, on the two locals it updates. *)
Definition convert_step
  (game_name : string) (game_args : option (list (gmap string Value)))
  (mpc_party : MPCParty) (server_ips : option (list string))
  (i : nat) (locals : option string * list string)
  : M W (option string * list string) :=
  let '(binary_name, cmd_args_list) := locals in
  game_arg ←
    match game_args with
    | Some l => py_getitem l i
    | None => mret ∅
    end;
  server_ip ←
    match server_ips with
    | Some l => Some <$> py_getitem l i
    | None => mret None
    end;
  '(package_name, cmd_args) ←
    match repeated_keyword game_arg with
    | Some k => raise (multiple_values k)
    | None =>
        build_onedocker_args mpc_game_svc game_name mpc_party server_ip
          game_arg
    end;
  let binary_name :=
    match binary_name with
    | None => Some package_name
    | Some b => Some b
    end in
  mret (binary_name, cmd_args_list ++ [cmd_args]).

(** Lines 131-145: the locals after the loop. *)
Definition convert_loop
  (game_name : string) (game_args : option (list (gmap string Value)))
  (mpc_party : MPCParty) (server_ips : option (list string))
  : M W (option string * list string) :=
  n ← py_len game_args;
  for_each (convert_step game_name game_args mpc_party server_ips)
           (seq 0 n) (None, []).

Definition convert_cmd_args_list
  (game_name : string) (game_args : option (list (gmap string Value)))
  (mpc_party : MPCParty) (server_ips : option (list string))
  : M W (string * list string) :=
  if py_not game_args then
    raise (ValueError "Missing game_args or it's empty")
  else if bool_decide (mpc_party = CLIENT) && py_not server_ips then
    raise (ValueError "Missing server_ips")
  else
    '(binary_name, cmd_args_list) ←
      convert_loop game_name game_args mpc_party server_ips;
    match binary_name with
    | None => raise (ValueError "Can't get binary_name from game_args")
    | Some b => mret (b, cmd_args_list)
    end.
End convert.

(** ** The constructor of [MPCService] *)

(** The object the constructor leaves behind.  [task_definition] is stored
    as it was passed.  The logger is not modelled. *)
Record MPCService (ContainerService GameService OneDocker : Type) : Type := {
  container_svc : ContainerService;
  task_definition : option string;
  mpc_game_svc : GameService;
  onedocker_svc : OneDocker
}.
Arguments container_svc {_ _ _} _.
Arguments task_definition {_ _ _} _.
Arguments mpc_game_svc {_ _ _} _.
Arguments onedocker_svc {_ _ _} _.

Section init.
Context {ContainerService GameService OneDocker : Type}.
Context `{!PyStr ContainerService, !PyStr GameService}.
(** [fbpcp.service.onedocker.OneDockerService], a class of another
    package: any constructor, which may raise. *)
Variable OneDockerService :
  ContainerService → option string → result OneDocker.

Definition dependency_missing
  (container_svc : option ContainerService)
  (mpc_game_svc : option GameService) : string :=
  "Dependency is missing. container_svc=" +:+ py_str container_svc
    +:+ ", mpc_game_svc=" +:+ py_str mpc_game_svc.

Definition MPCService_init
  (container_svc : option ContainerService)
  (task_definition : option string)
  (mpc_game_svc : option GameService)
  : result (MPCService ContainerService GameService OneDocker) :=
  match container_svc, mpc_game_svc with
  | Some c, Some g =>
      onedocker_svc ← OneDockerService c task_definition;
      mret {| container_svc := c;
              task_definition := task_definition;
              mpc_game_svc := g;
              onedocker_svc := onedocker_svc |}
  | _, _ =>
      Raise (ValueError (dependency_missing container_svc mpc_game_svc))
  end.
End init.

(** ** A recording double of the game service *)

(** One call of [build_onedocker_args]: what it was given, the world it
    ran in, how it ended, and the world it left. *)
Record call (Value W : Type) : Type := {
  call_game_name : string;
  call_mpc_party : MPCParty;
  call_server_ip : option string;
  call_game_arg : gmap string Value;
  call_before : W;
  call_result : result (string * string);
  call_after : W
}.
Arguments call_game_name {Value W} _.
Arguments call_mpc_party {Value W} _.
Arguments call_server_ip {Value W} _.
Arguments call_game_arg {Value W} _.
Arguments call_before {Value W} _.
Arguments call_result {Value W} _.
Arguments call_after {Value W} _.

(** [spy svc] behaves as [svc] and appends each call to a log kept next
    to the world of [svc]. *)
Definition spy {Value W} (svc : MPCGameService Value W)
  : MPCGameService Value (W * list (call Value W)) :=
  {| build_onedocker_args := λ game_name mpc_party server_ip game_arg '(w, log),
       let '(r, w') :=
         build_onedocker_args svc game_name mpc_party server_ip game_arg w in
       (r, (w', log ++ [ {| call_game_name := game_name;
                            call_mpc_party := mpc_party;
                            call_server_ip := server_ip;
                            call_game_arg := game_arg;
                            call_before := w;
                            call_result := r;
                            call_after := w' |} ])) |}.

(** The outcome and the log of a run that started with an empty log. *)
Definition outcome_of {Value W A}
  (c : M (W * list (call Value W)) A) (w : W) : result A :=
  (c (w, [])).1.
Definition calls_of {Value W A}
  (c : M (W * list (call Value W)) A) (w : W) : list (call Value W) :=
  (c (w, [])).2.2.
Definition world_of {Value W A}
  (c : M (W * list (call Value W)) A) (w : W) : W :=
  (c (w, [])).2.1.

(** ** Doubles used in the examples *)

(** Answers every call with package [pkg] and a command line made of the
    address, if any, and the [input_filenames] argument. *)
Definition echo_cmd (server_ip : option string) (game_arg : gmap string string)
  : string :=
  default "-" server_ip +:+ " " +:+ default "?" (game_arg !! "input_filenames").

Definition echo_svc (pkg : string) : MPCGameService string unit :=
  {| build_onedocker_args := λ _ _ server_ip game_arg w,
       (Ok (pkg, echo_cmd server_ip game_arg), w) |}.

(** Names the package after the [input_filenames] argument, so that two
    containers resolve to two packages. *)
Definition own_pkg_svc : MPCGameService string unit :=
  {| build_onedocker_args := λ _ _ server_ip game_arg w,
       (Ok (default "?" (game_arg !! "input_filenames"),
            echo_cmd server_ip game_arg), w) |}.

(** Rejects a container without [input_filenames], as a schema check
    would, and counts the calls it received. *)
Definition strict_svc : MPCGameService string nat :=
  {| build_onedocker_args := λ _ _ server_ip game_arg n,
       match game_arg !! "input_filenames" with
       | Some f => (Ok ("pkg", echo_cmd server_ip game_arg), S n)
       | None =>
           (Raise (OtherError "KeyError" "input_filenames"), S n)
       end |}.

Definition f1 : gmap string string := {[ "input_filenames" := "f1" ]}.
Definition f2 : gmap string string := {[ "input_filenames" := "f2" ]}.
Definition no_file : gmap string string := {[ "concurrency" := "4" ]}.
(** A container whose arguments repeat a keyword of the call. *)
Definition f1_with_server_ip : gmap string string :=
  <["server_ip" := "10.9.9.9"]> f1.

(** ** What a run of the loop looks like *)

Section runs.
Context {Value W : Type}.
Variable svc : MPCGameService Value W.
Variables (game_name : string) (game_args : list (gmap string Value)).
Variables (mpc_party : MPCParty) (server_ips : option (list string)).

(** The address container [i] is given. *)
Definition address (i : nat) : option string := a ← server_ips; a !! i.

(** [server_ips[i]] does not raise. *)
Definition has_address (i : nat) : Prop :=
  match server_ips with
  | Some a => i < length a
  | None => True
  end.

#[global] Instance has_address_dec i : Decision (has_address i).
Proof. unfold has_address. destruct server_ips; apply _. Defined.

(** [c] is the call for container [i]. *)
Record call_for (i : nat) (c : call Value W) : Prop := {
  for_game_name : call_game_name c = game_name;
  for_mpc_party : call_mpc_party c = mpc_party;
  for_game_arg : game_args !! i = Some (call_game_arg c);
  for_has_address : has_address i;
  for_server_ip : call_server_ip c = address i;
  for_result :
    build_onedocker_args svc game_name mpc_party (address i)
      (call_game_arg c) (call_before c) = (call_result c, call_after c);
  for_keywords : repeated_keyword (call_game_arg c) = None
}.

(** The call expression for container [i] raises [e]: the container has
    an address, if addresses are given, and its arguments repeat a
    keyword of the call. *)
Definition repeats_keyword (i : nat) (e : exn) : Prop :=
  has_address i ∧
  ∃ g k, game_args !! i = Some g ∧ repeated_keyword g = Some k ∧
         e = multiple_values k.

(** The calls are those for containers [k], [k+1], ... in this order. *)
Definition calls_from (k : nat) (calls : list (call Value W)) : Prop :=
  ∀ j c, calls !! j = Some c → call_for (k + j) c.

(** Each call ran in the world the previous one left. *)
Fixpoint linked (w : W) (calls : list (call Value W)) (w' : W) : Prop :=
  match calls with
  | [] => w' = w
  | c :: calls' => call_before c = w ∧ linked (call_after c) calls' w'
  end.

(** How [m] rounds from container [k] can end, given the locals they
    started with and the calls they made. *)
Definition rounds_end (k m : nat) (binary_name : option string)
  (cmd_args_list : list string) (calls : list (call Value W))
  (r : result (option string * list string)) : Prop :=
  match r with
  | Ok (binary_name', cmd_args_list') =>
      ∃ outs, length outs = m ∧
        call_result <$> calls = Ok <$> outs ∧
        cmd_args_list' = cmd_args_list ++ outs.*2 ∧
        binary_name' = match binary_name with
                       | Some b => Some b
                       | None => head outs.*1
                       end
  | Raise e =>
      ∃ outs, length outs < m ∧
        (call_result <$> calls = (Ok <$> outs) ++ [Raise e]
         ∨ (call_result <$> calls = Ok <$> outs ∧
            e = IndexError "list index out of range" ∧
            ¬ has_address (k + length outs))
         ∨ (call_result <$> calls = Ok <$> outs ∧
            repeats_keyword (k + length outs) e))
  end.

(** How the whole call can end, given the calls it made. *)
Definition call_end (calls : list (call Value W))
  (r : result (string * list string)) : Prop :=
  match r with
  | Ok (binary_name, cmd_args_list) =>
      ∃ outs, length outs = length game_args ∧
        call_result <$> calls = Ok <$> outs ∧
        cmd_args_list = outs.*2 ∧
        head outs.*1 = Some binary_name
  | Raise e =>
      ∃ outs, length outs < length game_args ∧
        (call_result <$> calls = (Ok <$> outs) ++ [Raise e]
         ∨ (call_result <$> calls = Ok <$> outs ∧
            e = IndexError "list index out of range" ∧
            ¬ has_address (length outs))
         ∨ (call_result <$> calls = Ok <$> outs ∧
            repeats_keyword (length outs) e))
  end.
End runs.

(** A run with the recording double, seen without the log, is the run
    with the collaborator itself. *)
Definition simulates {W L A} (c' : M (W * L) A) (c : M W A) : Prop :=
  ∀ w log, ((c' (w, log)).1, (c' (w, log)).2.1) = c w.

(** Two computations end the same way in every world, up to [R] on what
    they return. *)
Definition agree {W A} (R : A → A → Prop) (c c' : M W A) : Prop :=
  ∀ w,
    match c w, c' w with
    | (Ok a, w1), (Ok a', w1') => R a a' ∧ w1 = w1'
    | (Raise e, w1), (Raise e', w1') => e = e' ∧ w1 = w1'
    | _, _ => False
    end.

(** Two game services that differ at most in the package names they
    return. *)
Definition same_but_package {Value W} (svc svc' : MPCGameService Value W)
  : Prop :=
  ∀ game_name mpc_party server_ip game_arg,
    agree (λ o o', o.2 = o'.2)
      (build_onedocker_args svc game_name mpc_party server_ip game_arg)
      (build_onedocker_args svc' game_name mpc_party server_ip game_arg).

(** The locals of two runs: the same commands so far, and a binary name
    in the one exactly when there is one in the other. *)
Definition same_but_binary_name (s s' : option string * list string) : Prop :=
  (is_Some s.1 ↔ is_Some s'.1) ∧ s.2 = s'.2.


(** The call raises and the collaborator was not called. *)
Definition fails_before_any_call {Value W A}
  (c : M (W * list (call Value W)) A) (w : W) : Prop :=
  is_ok (outcome_of c w) = false ∧ calls_of c w = [].


(** A [OneDockerService] that keeps what it is given and checks
    nothing. *)
Definition keep_onedocker (container_svc : string)
  (task_definition : option string) : result (string * option string) :=
  Ok (container_svc, task_definition).


(** A game service without state that never raises: a function from the
    arguments of a call to a package name and a command line. *)
Definition stateless_svc {Value W}
  (f : string → MPCParty → option string → gmap string Value → string * string)
  : MPCGameService Value W :=
  {| build_onedocker_args := λ game_name mpc_party server_ip game_arg w,
       (Ok (f game_name mpc_party server_ip game_arg), w) |}.

(** The command lines a stateless game service gives for the containers
    [k], [k+1], ... *)
Fixpoint commands_from {Value}
  (f : string → MPCParty → option string → gmap string Value → string * string)
  (game_name : string) (mpc_party : MPCParty) (server_ips : option (list string))
  (k : nat) (game_args : list (gmap string Value)) : list string :=
  match game_args with
  | [] => []
  | g :: rest =>
      (f game_name mpc_party (address server_ips k) g).2
        :: commands_from f game_name mpc_party server_ips (S k) rest
  end.

(** * Properties *)

(** ** The guards *)

Section guards.
Context {Value W : Type}.
Variable svc : MPCGameService Value W.

Lemma reject_game_args game_name game_args mpc_party server_ips w :
  py_not game_args = true →
  convert_cmd_args_list svc game_name game_args mpc_party server_ips w
  = (Raise (ValueError "Missing game_args or it's empty"), w).
Proof. intros H. unfold convert_cmd_args_list. by rewrite H. Qed.

Lemma reject_server_ips game_name game_args server_ips w :
  py_not game_args = false →
  py_not server_ips = true →
  convert_cmd_args_list svc game_name game_args CLIENT server_ips w
  = (Raise (ValueError "Missing server_ips"), w).
Proof. intros H1 H2. unfold convert_cmd_args_list. by rewrite H1, H2. Qed.

(** Past the guards the call is the loop and the check after it. *)
Lemma past_guards game_name g game_args mpc_party server_ips :
  (mpc_party = CLIENT → py_not server_ips = false) →
  convert_cmd_args_list svc game_name (Some (g :: game_args)) mpc_party
    server_ips
  = ('(binary_name, cmd_args_list) ←
       convert_loop svc game_name (Some (g :: game_args)) mpc_party
         server_ips;
     match binary_name with
     | None => raise (ValueError "Can't get binary_name from game_args")
     | Some b => mret (b, cmd_args_list)
     end).
Proof.
  intros H. unfold convert_cmd_args_list. simpl.
  destruct mpc_party; simpl; [done|]. by rewrite H.
Qed.
End guards.

(** ** Running a sequence *)

Lemma bind_run {W A B} (c : M W A) (f : A → M W B) w :
  (c ≫= f) w
  = match c w with
    | (Ok a, w') => f a w'
    | (Raise e, w') => (Raise e, w')
    end.
Proof. reflexivity. Qed.

(** ** The loop *)

Lemma for_each_cons {W S} (body : nat → S → M W S) i rest s w :
  for_each body (i :: rest) s w
  = match body i s w with
    | (Ok s', w') => for_each body rest s' w'
    | (Raise e, w') => (Raise e, w')
    end.
Proof. reflexivity. Qed.

Section loop.
Context {Value W : Type}.
Variable svc : MPCGameService Value W.
Variables (game_name : string) (game_args : list (gmap string Value)).
Variables (mpc_party : MPCParty) (server_ips : option (list string)).

Abbreviation step :=
  (convert_step (spy svc) game_name (Some game_args) mpc_party server_ips).
Abbreviation is_call_for :=
  (call_for svc game_name game_args mpc_party server_ips).
Abbreviation are_calls_from :=
  (calls_from svc game_name game_args mpc_party server_ips).
Abbreviation addr := (address server_ips).
Abbreviation has_addr := (has_address server_ips).
Abbreviation ends := (rounds_end game_args server_ips).

Lemma address_None i : ¬ has_addr i → addr i = None.
Proof.
  unfold has_address, address. destruct server_ips as [a|]; simpl; [|done].
  intros H. apply lookup_ge_None. lia.
Qed.

(** A round without an address for its container raises before the
    call. *)
Lemma step_no_address i g locals w log :
  game_args !! i = Some g →
  ¬ has_addr i →
  step i locals (w, log)
  = (Raise (IndexError "list index out of range"), (w, log)).
Proof.
  intros Hg Ha. destruct locals as [bn acc].
  unfold convert_step, py_getitem, has_address in *.
  destruct server_ips as [a|]; [|done].
  assert (a !! i = None) as Hi by (apply lookup_ge_None; lia).
  unfold mbind, M_bind, fmap, M_fmap. rewrite Hg. simpl. by rewrite Hi.
Qed.

(** A round whose container repeats a keyword of the call raises
    before the collaborator is entered. *)
Lemma step_keyword i g k locals w log :
  game_args !! i = Some g →
  has_addr i →
  repeated_keyword g = Some k →
  step i locals (w, log) = (Raise (multiple_values k), (w, log)).
Proof.
  intros Hg Ha Hk. destruct locals as [bn acc].
  unfold convert_step, py_getitem, has_address in *.
  unfold mbind, M_bind, fmap, M_fmap. rewrite Hg. simpl.
  destruct server_ips as [a|]; simpl in *.
  - destruct (lookup_lt_is_Some_2 a i Ha) as [s Hs].
    rewrite Hs. simpl. by rewrite Hk.
  - by rewrite Hk.
Qed.

(** Any other round makes one call and follows its outcome. *)
Lemma step_call i g bn acc w log :
  game_args !! i = Some g →
  has_addr i →
  repeated_keyword g = None →
  ∃ c, is_call_for i c ∧ call_before c = w ∧ call_game_arg c = g ∧
    step i (bn, acc) (w, log)
    = (match call_result c with
       | Ok (package_name, cmd_args) =>
           Ok (match bn with Some b => Some b | None => Some package_name end,
               acc ++ [cmd_args])
       | Raise e => Raise e
       end, (call_after c, log ++ [c])).
Proof.
  intros Hg Ha Hk.
  destruct (build_onedocker_args svc game_name mpc_party (addr i) g w)
    as [r w'] eqn:Hr.
  exists {| call_game_name := game_name; call_mpc_party := mpc_party;
            call_server_ip := addr i; call_game_arg := g;
            call_before := w; call_result := r; call_after := w' |}.
  split; [by constructor|]. do 2 (split; [done|]).
  unfold convert_step, py_getitem, has_address, address in *.
  unfold mbind, M_bind, fmap, M_fmap. rewrite Hg. simpl.
  destruct server_ips as [a|]; simpl in *.
  - destruct (lookup_lt_is_Some_2 a i Ha) as [s Hs].
    rewrite Hs in *. simpl. rewrite Hk. simpl. rewrite Hr.
    destruct r as [[p c]|e]; by destruct bn.
  - rewrite Hk. simpl. rewrite Hr. destruct r as [[p c]|e]; by destruct bn.
Qed.

Lemma are_calls_from_cons k c calls :
  is_call_for k c → are_calls_from (S k) calls →
  are_calls_from k (c :: calls).
Proof.
  intros Hc Hcs [|j] c' Hj; simpl in *.
  - rewrite Nat.add_0_r. by simplify_eq.
  - replace (k + S j) with (S k + j) by lia. by apply Hcs.
Qed.

Lemma are_calls_from_nil k : are_calls_from k [].
Proof. by intros j c. Qed.

(** The rounds for containers [k .. k+m-1]. *)
Lemma rounds_run m : ∀ k bn acc w log r w' log',
  k + m ≤ length game_args →
  for_each step (seq k m) (bn, acc) (w, log) = (r, (w', log')) →
  ∃ calls, log' = log ++ calls ∧ are_calls_from k calls ∧
    linked w calls w' ∧ ends k m bn acc calls r.
Proof.
  induction m as [|m IH]; intros k bn acc w log r w' log' Hlen Hrun.
  - simpl in Hrun. injection Hrun as <- <- <-.
    exists []. rewrite app_nil_r.
    split; [done|]. split; [apply are_calls_from_nil|]. split; [done|].
    exists []. by rewrite app_nil_r; destruct bn.
  - destruct (lookup_lt_is_Some_2 game_args k) as [g Hg]; [lia|].
    change (seq k (S m)) with (k :: seq (S k) m) in Hrun.
    rewrite for_each_cons in Hrun.
    destruct (decide (has_addr k)) as [Ha|Ha];
      [destruct (repeated_keyword g) as [key|] eqn:Hkey|].
    + rewrite (step_keyword k g key (bn, acc) w log Hg Ha Hkey) in Hrun.
      injection Hrun as <- <- <-.
      exists []. rewrite app_nil_r.
      split; [done|]. split; [apply are_calls_from_nil|]. split; [done|].
      exists []. simpl. split; [lia|]. right; right.
      rewrite Nat.add_0_r. split; [done|]. split; [done|]. by exists g, key.
    + destruct (step_call k g bn acc w log Hg Ha Hkey)
        as (c & Hc & Hbefore & _ & Hstep).
      rewrite Hstep in Hrun.
      destruct (call_result c) as [[p cmd]|e] eqn:Hres.
      * apply IH in Hrun as (calls & -> & Hcalls & Hlink & Hend); [|lia].
        exists (c :: calls). rewrite <- app_assoc.
        split; [done|]. split; [by apply are_calls_from_cons|].
        split; [done|].
        unfold rounds_end in *. destruct r as [[bn' acc']|e].
        -- destruct Hend as (outs & Hn & Hrs & -> & ->).
           exists ((p, cmd) :: outs).
           rewrite !fmap_cons, Hres, Hrs, <- app_assoc. simpl.
           split; [lia|]. split; [done|]. split; [done|]. by destruct bn.
        -- destruct Hend as (outs & Hn & Hrs).
           exists ((p, cmd) :: outs). rewrite !fmap_cons, Hres. simpl.
           split; [lia|].
           replace (k + S (length outs)) with (S k + length outs) by lia.
           destruct Hrs as [->|[(-> & -> & Hno)|(-> & Hkw)]];
             [by left|by right; left|by right; right].
      * injection Hrun as <- <- <-.
        exists [c].
        split; [done|].
        split; [by apply are_calls_from_cons, are_calls_from_nil|].
        split; [done|].
        exists []. simpl. rewrite Hres. split; [lia|]. by left.
    + rewrite (step_no_address k g (bn, acc) w log Hg Ha) in Hrun.
      injection Hrun as <- <- <-.
      exists []. rewrite app_nil_r.
      split; [done|]. split; [apply are_calls_from_nil|]. split; [done|].
      exists []. simpl. split; [lia|]. right; left.
      by rewrite Nat.add_0_r.
Qed.

(** The loop, from the first container. *)
Lemma loop_run w log r w' log' :
  convert_loop (spy svc) game_name (Some game_args) mpc_party server_ips
    (w, log) = (r, (w', log')) →
  ∃ calls, log' = log ++ calls ∧ are_calls_from 0 calls ∧
    linked w calls w' ∧ ends 0 (length game_args) None [] calls r.
Proof. intros Hrun. by apply rounds_run in Hrun. Qed.

(** The whole call, for a list of at least one container that passes
    the guards. *)
Lemma convert_run w log r w' log' :
  game_args ≠ [] →
  (mpc_party = CLIENT → py_not server_ips = false) →
  convert_cmd_args_list (spy svc) game_name (Some game_args) mpc_party
    server_ips (w, log) = (r, (w', log')) →
  ∃ calls, log' = log ++ calls ∧ are_calls_from 0 calls ∧
    linked w calls w' ∧
    call_end game_args server_ips calls r.
Proof.
  intros Hne Hguard. destruct game_args as [|g rest] eqn:Hargs; [done|].
  rewrite past_guards by done. rewrite <- Hargs in *.
  unfold mbind at 1, M_bind at 1.
  destruct (convert_loop _ _ _ _ _ _) as [r0 [w0 log0]] eqn:Hloop.
  apply loop_run in Hloop as (calls & -> & Hcalls & Hlink & Hend).
  unfold rounds_end in Hend. destruct r0 as [[bn acc]|e].
  - destruct Hend as (outs & Hn & Hrs & -> & ->).
    destruct outs as [|[p cmd] outs]; [by subst|].
    simpl. intros [= <- <- <-]. exists calls.
    split; [done|]. split; [done|]. split; [done|].
    exists ((p, cmd) :: outs). by rewrite Hn.
  - intros [= <- <- <-]. exists calls.
    split; [done|]. split; [done|]. split; [done|].
    destruct Hend as (outs & Hn & Hrs). exists outs. split; [lia|].
    destruct Hrs as [?|[(? & ? & ?)|(? & ?)]];
      [by left|by right; left|by right; right].
Qed.
End loop.

(** ** The recording double does not change the run *)

Section simulation.
Context {W L : Type}.

Lemma simulates_ret {A} (a : A) : simulates (W:=W) (L:=L) (mret a) (mret a).
Proof. by intros w log. Qed.

Lemma simulates_raise {A} e :
  simulates (W:=W) (L:=L) (A:=A) (raise e) (raise e).
Proof. by intros w log. Qed.

Lemma simulates_bind {A B} (c' : M (W * L) A) c (f' : A → M (W * L) B) f :
  simulates c' c → (∀ a, simulates (f' a) (f a)) →
  simulates (c' ≫= f') (c ≫= f).
Proof.
  intros Hc Hf w log. specialize (Hc w log).
  unfold mbind, M_bind.
  destruct (c' (w, log)) as [[a|e] [w1 log1]]; simpl in Hc; rewrite <- Hc.
  - apply Hf.
  - done.
Qed.

Lemma simulates_fmap {A B} (g : A → B) (c' : M (W * L) A) c :
  simulates c' c → simulates (g <$> c') (g <$> c).
Proof.
  intros Hc w log. specialize (Hc w log). unfold fmap, M_fmap.
  destruct (c' (w, log)) as [[a|e] [w1 log1]]; simpl in Hc; by rewrite <- Hc.
Qed.

Lemma simulates_getitem {A} (l : list A) i :
  simulates (W:=W) (L:=L) (py_getitem l i) (py_getitem l i).
Proof.
  unfold py_getitem.
  destruct (l !! i); [apply simulates_ret|apply simulates_raise].
Qed.

Lemma simulates_for_each {S} (body' : nat → S → M (W * L) S) body indices :
  (∀ i s, simulates (body' i s) (body i s)) →
  ∀ s, simulates (for_each body' indices s) (for_each body indices s).
Proof.
  intros Hbody. induction indices as [|i rest IH]; intros s; simpl.
  - apply simulates_ret.
  - by apply simulates_bind.
Qed.
End simulation.

Section transparency.
Context {Value W : Type}.
Variable svc : MPCGameService Value W.

Lemma simulates_spy game_name mpc_party server_ip game_arg :
  simulates
    (build_onedocker_args (spy svc) game_name mpc_party server_ip game_arg)
    (build_onedocker_args svc game_name mpc_party server_ip game_arg).
Proof.
  intros w log. simpl.
  by destruct (build_onedocker_args svc _ _ _ _ w).
Qed.

Lemma simulates_step game_name game_args mpc_party server_ips i locals :
  simulates
    (convert_step (spy svc) game_name game_args mpc_party server_ips i locals)
    (convert_step svc game_name game_args mpc_party server_ips i locals).
Proof.
  destruct locals as [bn acc]. unfold convert_step.
  apply simulates_bind.
  { destruct game_args; [apply simulates_getitem|apply simulates_ret]. }
  intros g. apply simulates_bind.
  { destruct server_ips;
      [apply simulates_fmap, simulates_getitem|apply simulates_ret]. }
  intros ip. apply simulates_bind.
  { destruct (repeated_keyword g); [apply simulates_raise|apply simulates_spy]. }
  intros [p c]. apply simulates_ret.
Qed.

Lemma simulates_loop game_name game_args mpc_party server_ips :
  simulates
    (convert_loop (spy svc) game_name game_args mpc_party server_ips)
    (convert_loop svc game_name game_args mpc_party server_ips).
Proof.
  unfold convert_loop. apply simulates_bind.
  - destruct game_args; [apply simulates_ret|apply simulates_raise].
  - intros n. apply simulates_for_each. intros i s. apply simulates_step.
Qed.

Lemma simulates_convert game_name game_args mpc_party server_ips :
  simulates
    (convert_cmd_args_list (spy svc) game_name game_args mpc_party server_ips)
    (convert_cmd_args_list svc game_name game_args mpc_party server_ips).
Proof.
  unfold convert_cmd_args_list.
  destruct (py_not game_args); [apply simulates_raise|].
  destruct (_ && _); [apply simulates_raise|].
  apply simulates_bind.
  - unfold convert_loop. apply simulates_bind.
    + destruct game_args; [apply simulates_ret|apply simulates_raise].
    + intros n. apply simulates_for_each. intros i s. apply simulates_step.
  - intros [[b|] acc]; [apply simulates_ret|apply simulates_raise].
Qed.
End transparency.

(** ** What the log of a call shows *)

Section observed.
Context {Value W : Type}.
Variable svc : MPCGameService Value W.
Variables (game_name : string) (mpc_party : MPCParty).
Variable server_ips : option (list string).

Abbreviation real game_args :=
  (convert_cmd_args_list svc game_name game_args mpc_party server_ips).
Abbreviation seen game_args :=
  (convert_cmd_args_list (spy svc) game_name game_args mpc_party server_ips).

Lemma seen_outcome game_args w :
  outcome_of (seen game_args) w = (real game_args w).1.
Proof.
  unfold outcome_of.
  by rewrite <- (simulates_convert svc game_name game_args mpc_party
                   server_ips w []).
Qed.

Lemma seen_world game_args w :
  world_of (seen game_args) w = (real game_args w).2.
Proof.
  unfold world_of.
  by rewrite <- (simulates_convert svc game_name game_args mpc_party
                   server_ips w []).
Qed.

(** A call the guards reject reaches the collaborator not once. *)
Lemma rejected_unseen game_args w :
  py_not game_args = true ∨ (mpc_party = CLIENT ∧ py_not server_ips = true) →
  calls_of (seen game_args) w = [] ∧ (real game_args w).2 = w ∧
  ∃ msg, (real game_args w).1 = Raise (ValueError msg).
Proof.
  unfold calls_of, convert_cmd_args_list.
  intros [->|[-> ->]]; [by eauto|].
  destruct (py_not game_args); by eauto.
Qed.

(** A call the guards let through. *)
Lemma accepted_seen game_args w :
  game_args ≠ [] →
  (mpc_party = CLIENT → py_not server_ips = false) →
  let calls := calls_of (seen (Some game_args)) w in
  calls_from svc game_name game_args mpc_party server_ips 0 calls ∧
  linked w calls (real (Some game_args) w).2 ∧
  call_end game_args server_ips calls (real (Some game_args) w).1.
Proof.
  intros Hne Hguard calls.
  rewrite <- seen_outcome, <- seen_world. subst calls.
  unfold calls_of, outcome_of, world_of.
  destruct (seen (Some game_args) (w, [])) as [r [w' log']] eqn:Hrun.
  apply convert_run in Hrun as (calls & -> & ? & ? & ?); done.
Qed.

(** Every call is either rejected by a guard or let through. *)
Lemma rejected_or_accepted (game_args : option (list (gmap string Value))) :
  (py_not game_args = true ∨ (mpc_party = CLIENT ∧ py_not server_ips = true))
  ∨ (∃ l, game_args = Some l ∧ l ≠ [] ∧
          (mpc_party = CLIENT → py_not server_ips = false)).
Proof.
  destruct game_args as [[|g l]|]; [by left; left| |by left; left].
  destruct (py_not server_ips) eqn:Hips, mpc_party.
  - right. exists (g :: l). by repeat split.
  - left. right. by split.
  - right. exists (g :: l). by repeat split.
  - right. exists (g :: l). by repeat split.
Qed.
End observed.

(** ** Package names are not compared *)

Section agreement.
Context {W : Type}.

Lemma agree_ret {A} (R : A → A → Prop) a a' :
R a a' → agree (W:=W) R (mret a) (mret a').
Proof. by intros HR w. Qed.

Lemma agree_raise {A} (R : A → A → Prop) e : agree (W:=W) R (raise e) (raise e).
Proof. by intros w. Qed.

Lemma agree_bind {A B} (R : A → A → Prop) (Q : B → B → Prop)
  (c c' : M W A) (f f' : A → M W B) :
agree R c c' → (∀ a a', R a a' → agree Q (f a) (f' a')) →
agree Q (c ≫= f) (c' ≫= f').
Proof.
intros Hc Hf w. specialize (Hc w). unfold mbind, M_bind.
destruct (c w) as [[a|e] w1], (c' w) as [[a'|e'] w1']; try done.
destruct Hc as [HR <-]. by apply Hf.
Qed.

Lemma agree_refl {A} (c : M W A) : agree eq c c.
Proof. intros w. by destruct (c w) as [[a|e] w1]. Qed.

Lemma agree_for_each {S} (R : S → S → Prop) (body body' : nat → S → M W S)
  indices :
(∀ i s s', R s s' → agree R (body i s) (body' i s')) →
∀ s s', R s s' → agree R (for_each body indices s) (for_each body' indices s').
Proof.
intros Hbody. induction indices as [|i rest IH]; intros s s' HR; simpl.
- by apply agree_ret.
- eapply agree_bind; [by apply Hbody|]. done.
Qed.
End agreement.

Lemma agree_convert {Value W} (svc svc' : MPCGameService Value W)
    game_name game_args mpc_party server_ips :
  same_but_package svc svc' →
  agree (λ r r', r.2 = r'.2)
    (convert_cmd_args_list svc game_name game_args mpc_party server_ips)
    (convert_cmd_args_list svc' game_name game_args mpc_party server_ips).
Proof.
  intros Hsvc. unfold convert_cmd_args_list.
  destruct (py_not game_args); [apply agree_raise|].
  destruct (_ && _); [apply agree_raise|].
  apply agree_bind with (R := same_but_binary_name).
  - unfold convert_loop. eapply agree_bind; [apply agree_refl|].
    intros n ? <-. apply agree_for_each; [|done].
    intros i [bn acc] [bn' acc'] [Hbn Hacc]. simpl in *. subst acc'.
    eapply agree_bind; [apply agree_refl|]. intros g ? <-.
    eapply agree_bind; [apply agree_refl|]. intros ip ? <-.
    eapply agree_bind.
    { destruct (repeated_keyword g); [apply agree_raise|apply Hsvc]. }
    intros [p c] [p' c'] Hc. simpl in Hc. subst c'.
    apply agree_ret. split; simpl; [|done].
    destruct bn, bn'; split; intros; by eauto.
  - intros [bn acc] [bn' acc'] [Hbn Hacc]. simpl in *. subst acc'.
    destruct bn as [b|], bn' as [b'|].
    + by apply agree_ret.
    + by destruct Hbn as [[? [=]] _].
    + by destruct Hbn as [_ [? [=]]].
    + apply agree_raise.
Qed.

(** ** Calls and addresses *)

(** With a list of addresses, no more calls are made than there are
    addresses. *)
Lemma calls_within_addresses {Value W} (svc : MPCGameService Value W)
    game_name game_args mpc_party a calls :
  calls_from svc game_name game_args mpc_party (Some a) 0 calls →
  length calls ≤ length a.
Proof.
  intros Hcalls. destruct (decide (length calls = 0)) as [->|Hn]; [lia|].
  destruct (lookup_lt_is_Some_2 calls (length calls - 1)) as [c Hc]; [lia|].
  destruct (Hcalls _ c Hc) as [_ _ _ Hhas _ _ _]. simpl in Hhas. lia.
Qed.

(** No more calls are made than there are containers. *)
Lemma calls_within_game_args {Value W} (svc : MPCGameService Value W)
    game_name game_args mpc_party server_ips calls :
  calls_from svc game_name game_args mpc_party server_ips 0 calls →
  length calls ≤ length game_args.
Proof.
  intros Hcalls. destruct (decide (length calls = 0)) as [->|Hn]; [lia|].
  destruct (lookup_lt_is_Some_2 calls (length calls - 1)) as [c Hc]; [lia|].
  destruct (Hcalls _ c Hc) as [_ _ Hg _ _ _ _]. simpl in Hg.
  apply lookup_lt_Some in Hg. lia.
Qed.

(** The world after a chain of calls is the one its last call left. *)
Lemma linked_last {Value W} (calls : list (call Value W)) w w' c :
  linked w calls w' → last calls = Some c → w' = call_after c.
Proof.
  revert w. induction calls as [|c0 calls IH]; intros w Hlink Hlast; [done|].
  destruct Hlink as [_ Hlink]. destruct calls as [|c1 calls].
  - simpl in *. by simplify_eq.
  - by apply (IH (call_after c0)).
Qed.

(** Where a failed call can stand in a list of outcomes that is all
    successes, or all successes and then one failure. *)
Lemma failure_is_last {A} (rs : list (result A)) (outs : list A) i e e0 :
  rs !! i = Some (Raise e) →
  rs = (Ok <$> outs) ++ [Raise e0] →
  i = length outs ∧ e = e0.
Proof.
  intros Hi ->. destruct (decide (i < length outs)) as [Hlt|Hge].
  - rewrite lookup_app_l in Hi by (by rewrite length_fmap).
    rewrite list_lookup_fmap in Hi. by destruct (outs !! i).
  - rewrite lookup_app_r in Hi by (rewrite length_fmap; lia).
    rewrite length_fmap in Hi.
    destruct (i - length outs) as [|n] eqn:Hn; [|done].
    simpl in Hi. split; [lia|congruence].
Qed.

Lemma no_failure_among_successes {A} (rs : list (result A)) (outs : list A) i e :
  rs !! i = Some (Raise e) → rs = Ok <$> outs → False.
Proof.
  intros Hi ->. rewrite list_lookup_fmap in Hi. by destruct (outs !! i).
Qed.

(** ** Outcomes of calls, read off the log *)

Lemma outcomes_all_ok {Value W} (calls : list (call Value W)) outs :
  call_result <$> calls = Ok <$> outs →
  length calls = length outs ∧
  Forall (λ c, is_ok (call_result c) = true) calls.
Proof.
  intros Hrs. split.
  - apply (f_equal length) in Hrs. by rewrite !length_fmap in Hrs.
  - apply Forall_lookup. intros j c Hj.
    assert ((call_result <$> calls) !! j = Some (call_result c)) as Hr
      by (by rewrite list_lookup_fmap, Hj).
    rewrite Hrs, list_lookup_fmap in Hr.
    destruct (outs !! j); simpl in Hr; [|done]. by injection Hr as <-.
Qed.

Lemma outcomes_last_raises {Value W} (calls : list (call Value W)) outs e :
  call_result <$> calls = (Ok <$> outs) ++ [Raise e] →
  length calls = S (length outs) ∧
  ∃ c, last calls = Some c ∧ call_result c = Raise e.
Proof.
  intros Hrs.
  assert (length calls = S (length outs)) as Hlen.
  { apply (f_equal length) in Hrs.
    rewrite length_app, !length_fmap in Hrs. simpl in Hrs. lia. }
  split; [done|].
  destruct (lookup_lt_is_Some_2 calls (length outs)) as [c Hc]; [lia|].
  exists c. split; [by rewrite last_lookup, Hlen|].
  assert ((call_result <$> calls) !! length outs = Some (call_result c)) as Hr
    by (by rewrite list_lookup_fmap, Hc).
  rewrite Hrs, lookup_app_r in Hr by (by rewrite length_fmap).
  rewrite length_fmap, Nat.sub_diag in Hr. simpl in Hr. congruence.
Qed.

(** ** Loops that agree *)

Lemma for_each_ext {W S} (body body' : nat → S → M W S) indices :
  (∀ i, i ∈ indices → ∀ s w, body i s w = body' i s w) →
  ∀ s w, for_each body indices s w = for_each body' indices s w.
Proof.
  induction indices as [|i rest IH]; intros Hbody s w; [done|].
  rewrite !for_each_cons, Hbody by constructor.
  destruct (body' i s w) as [[s'|e] w']; [|done].
  apply IH. intros j Hj. apply Hbody. by constructor.
Qed.

Lemma for_each_app {W S} (body : nat → S → M W S) indices indices' s w :
  for_each body (indices ++ indices') s w
  = match for_each body indices s w with
    | (Ok s', w') => for_each body indices' s' w'
    | (Raise e, w') => (Raise e, w')
    end.
Proof.
  revert s w. induction indices as [|i rest IH]; intros s w; [done|].
  rewrite <- app_comm_cons, !for_each_cons.
  destruct (body i s w) as [[s'|e] w']; [|done]. apply IH.
Qed.

Section steps.
Context {Value W : Type}.
Variable svc : MPCGameService Value W.
Variables (game_name : string) (mpc_party : MPCParty).

(** Addresses past position [i] play no part in round [i]. *)
Lemma step_more_addresses game_args a extra i locals w :
  i < length a →
  convert_step svc game_name game_args mpc_party (Some (a ++ extra)) i locals w
  = convert_step svc game_name game_args mpc_party (Some a) i locals w.
Proof.
  intros Hi. destruct locals as [bn acc].
  unfold convert_step, py_getitem. by rewrite lookup_app_l.
Qed.

(** Containers past position [i] play no part in round [i]. *)
Lemma step_more_game_args l l' server_ips i locals w :
  i < length l →
  convert_step svc game_name (Some (l ++ l')) mpc_party server_ips i locals w
  = convert_step svc game_name (Some l) mpc_party server_ips i locals w.
Proof.
  intros Hi. destruct locals as [bn acc].
  unfold convert_step, py_getitem. by rewrite lookup_app_l.
Qed.

(** The loop of a real run, read through the recording double. *)
Lemma rounds_real l server_ips k m bn acc w r w' :
  k + m ≤ length l →
  for_each (convert_step svc game_name (Some l) mpc_party server_ips)
    (seq k m) (bn, acc) w = (r, w') →
  match r with
  | Ok (bn', acc') =>
      ∃ outs, length outs = m ∧ acc' = acc ++ outs.*2 ∧
        bn' = match bn with Some b => Some b | None => head outs.*1 end
  | Raise _ => True
  end.
Proof.
  intros Hlen Hrun.
  pose proof (simulates_for_each (L := list (call Value W))
    (convert_step (spy svc) game_name (Some l) mpc_party server_ips)
    (convert_step svc game_name (Some l) mpc_party server_ips) (seq k m)
    (λ i s, simulates_step svc game_name (Some l) mpc_party server_ips i s)
    (bn, acc) w []) as Hsim.
  rewrite Hrun in Hsim.
  destruct (for_each _ _ _ (w, [])) as [r1 [w1 log]] eqn:Hspy.
  simpl in Hsim. injection Hsim as -> ->.
  apply rounds_run in Hspy as (calls & _ & _ & _ & Hend); [|done].
  destruct r as [[bn' acc']|e]; [|done].
  destruct Hend as (outs & ? & _ & ? & ?). by exists outs.
Qed.
End steps.

(** ** A game service without state *)

Section stateless.
Context {Value W : Type}.
Variable f :
  string → MPCParty → option string → gmap string Value → string * string.
Variables (game_name : string) (mpc_party : MPCParty).
Variable server_ips : option (list string).

Lemma stateless_step l i g bn acc (w : W) :
  l !! i = Some g →
  has_address server_ips i →
  repeated_keyword g = None →
  convert_step (stateless_svc f) game_name (Some l) mpc_party server_ips i
    (bn, acc) w
  = (Ok (match bn with
         | None => Some (f game_name mpc_party (address server_ips i) g).1
         | Some b => Some b
         end,
         acc ++ [(f game_name mpc_party (address server_ips i) g).2]), w).
Proof.
  intros Hg Ha Hk. unfold convert_step, py_getitem, has_address, address in *.
  unfold mbind, M_bind, fmap, M_fmap, mret, M_ret. rewrite Hg.
  destruct server_ips as [a|]; simpl in *.
  - destruct (lookup_lt_is_Some_2 a i Ha) as [ip Hip]. rewrite Hip. simpl.
    rewrite Hk. simpl. by destruct (f _ _ _ _), bn.
  - rewrite Hk. simpl. by destruct (f _ _ _ _), bn.
Qed.

Lemma stateless_rounds l2 : ∀ l1 bn acc (w : W),
  (∀ i, i < length (l1 ++ l2) → has_address server_ips i) →
  Forall (λ g, repeated_keyword g = None) l2 →
  for_each (convert_step (stateless_svc f) game_name (Some (l1 ++ l2))
              mpc_party server_ips)
    (seq (length l1) (length l2)) (bn, acc) w
  = (Ok (match bn, l2 with
         | Some b, _ => Some b
         | None, g :: _ =>
             Some (f game_name mpc_party
                     (address server_ips (length l1)) g).1
         | None, [] => None
         end,
         acc ++ commands_from f game_name mpc_party server_ips (length l1) l2),
     w).
Proof.
  induction l2 as [|g l2 IH]; intros l1 bn acc w Hall Hkw.
  - simpl. rewrite app_nil_r. by destruct bn.
  - cbn [length]. change (seq (length l1) (S (length l2)))
      with (length l1 :: seq (S (length l1)) (length l2)).
    apply Forall_cons in Hkw as [Hk Hkw].
    rewrite for_each_cons, (stateless_step _ _ g).
    + specialize (IH (l1 ++ [g])).
      rewrite <- app_assoc in IH. simpl in IH.
      replace (length (l1 ++ [g])) with (S (length l1)) in IH
        by (rewrite length_app; simpl; lia).
      rewrite IH by done. simpl. rewrite <- app_assoc. by destruct bn.
    + by rewrite lookup_app_r, Nat.sub_diag.
    + apply Hall. rewrite length_app. simpl. lia.
    + done.
Qed.

Lemma commands_from_lookup k l i g :
  l !! i = Some g →
  commands_from f game_name mpc_party server_ips k l !! i
  = Some (f game_name mpc_party (address server_ips (k + i)) g).2.
Proof.
  revert k i. induction l as [|g0 l IH]; intros k i Hi; [done|].
  destruct i as [|i]; simpl in *.
  - rewrite Nat.add_0_r. by simplify_eq.
  - replace (k + S i) with (S k + i) by lia. by apply IH.
Qed.

Lemma commands_from_length k l :
  length (commands_from f game_name mpc_party server_ips k l) = length l.
Proof. revert k. induction l as [|g l IH]; intros k; simpl; by rewrite ?IH. Qed.
End stateless.

(** ** The containers of the examples *)

Lemma f1_keywords : repeated_keyword f1 = None.
Proof. vm_compute. reflexivity. Qed.

Lemma f2_keywords : repeated_keyword f2 = None.
Proof. vm_compute. reflexivity. Qed.
(** ** The claims of the design document *)

(** C1.  A successful call for N >= 1 containers returns N commands in the
    order of [game_args]: the collaborator was called once per container,
    in that order; call [i] was given [game_args[i]] and the address
    [server_ips[i]] (no address when [server_ips] is absent); and command
    [i] is the command line that call returned. *)
Theorem commands_follow_game_args {Value W} (svc : MPCGameService Value W)
    game_name (game_args : list (gmap string Value)) mpc_party server_ips
    w binary_name commands :
  1 ≤ length game_args →
  (convert_cmd_args_list svc game_name (Some game_args) mpc_party server_ips
     w).1 = Ok (binary_name, commands) →
  let calls :=
    calls_of (convert_cmd_args_list (spy svc) game_name (Some game_args)
                mpc_party server_ips) w in
  length commands = length game_args ∧
  length calls = length game_args ∧
  ∀ i game_arg, game_args !! i = Some game_arg →
    ∃ c package_name cmd_args,
      calls !! i = Some c ∧
      call_game_name c = game_name ∧
      call_mpc_party c = mpc_party ∧
      call_game_arg c = game_arg ∧
      match server_ips with
      | Some a => ∃ ip, a !! i = Some ip ∧ call_server_ip c = Some ip
      | None => call_server_ip c = None
      end ∧
      build_onedocker_args svc game_name mpc_party (call_server_ip c)
        game_arg (call_before c) = (Ok (package_name, cmd_args), call_after c) ∧
      commands !! i = Some cmd_args.
Proof.
  intros Hn Hok calls.
  assert (game_args ≠ []) as Hne by (by destruct game_args; simpl in Hn; try lia).
  assert (mpc_party = CLIENT → py_not server_ips = false) as Hguard.
  { intros ->. destruct (py_not server_ips) eqn:Hips; [|done].
    rewrite reject_server_ips in Hok by (by destruct game_args). done. }
  destruct (accepted_seen svc game_name mpc_party server_ips game_args w
              Hne Hguard) as (Hcalls & _ & Hend).
  fold calls in Hcalls, Hend. rewrite Hok in Hend.
  destruct Hend as (outs & Hlen & Hrs & -> & _).
  assert (length calls = length game_args) as Hcl.
  { rewrite <- Hlen, <- (length_fmap call_result calls), Hrs.
    by rewrite length_fmap. }
  split; [by rewrite length_fmap|]. split; [done|].
  intros i g Hg.
  destruct (lookup_lt_is_Some_2 calls i) as [c Hc].
  { rewrite Hcl. by eapply lookup_lt_Some. }
  destruct (Hcalls i c Hc) as [Hgn Hp Harg Hhas Hip Hres _]. simpl in *.
  assert (call_result <$> calls !! i = Some (call_result c)) as Hri
    by (by rewrite Hc).
  rewrite <- list_lookup_fmap, Hrs, list_lookup_fmap in Hri.
  destruct (outs !! i) as [[p cmd]|] eqn:Ho; [|done].
  injection Hri as Hri.
  exists c, p, cmd. rewrite Hg in Harg. injection Harg as ->.
  split; [done|]. split; [done|]. split; [done|]. split; [done|].
  split; [|split].
  - unfold has_address, address in *. destruct server_ips as [a|]; [|done].
    simpl in Hip. destruct (lookup_lt_is_Some_2 a i Hhas) as [ip Hlk].
    exists ip. by rewrite Hip.
  - by rewrite Hip, Hres, <- Hri.
  - by rewrite list_lookup_fmap, Ho.
Qed.

(** The address-pairing scenario of the design document: two containers,
    two addresses, paired by position. *)
Lemma commands_follow_game_args_witness :
  let calls :=
    calls_of (convert_cmd_args_list (spy (echo_svc "lift_pkg")) "lift"
                (Some [f1; f2]) CLIENT (Some ["10.0.0.1"; "10.0.0.2"])) () in
  length ["10.0.0.1 f1"; "10.0.0.2 f2"] = length [f1; f2] ∧
  length calls = length [f1; f2] ∧
  ∀ i game_arg, [f1; f2] !! i = Some game_arg →
    ∃ c package_name cmd_args,
      calls !! i = Some c ∧
      call_game_name c = "lift" ∧
      call_mpc_party c = CLIENT ∧
      call_game_arg c = game_arg ∧
      (∃ ip, ["10.0.0.1"; "10.0.0.2"] !! i = Some ip ∧
             call_server_ip c = Some ip) ∧
      build_onedocker_args (echo_svc "lift_pkg") "lift" CLIENT
        (call_server_ip c) game_arg (call_before c)
      = (Ok (package_name, cmd_args), call_after c) ∧
      ["10.0.0.1 f1"; "10.0.0.2 f2"] !! i = Some cmd_args.
Proof.
  apply (commands_follow_game_args (echo_svc "lift_pkg") "lift" [f1; f2]
           CLIENT (Some ["10.0.0.1"; "10.0.0.2"]) () "lift_pkg").
  - simpl. lia.
  - vm_compute. reflexivity.
Defined.


(** C2.  The binary name a successful call returns is the package name
    the call for the first container returned, and the package names of
    the other containers play no part: with a game service that differs
    only in the package names it returns, whatever they are, the call
    succeeds all the same, with the same commands. *)
Theorem binary_name_is_first_package {Value W} (svc : MPCGameService Value W)
    game_name game_args mpc_party server_ips w binary_name commands :
  (convert_cmd_args_list svc game_name game_args mpc_party server_ips w).1
  = Ok (binary_name, commands) →
  (∃ game_arg rest cmd_args w1,
     game_args = Some (game_arg :: rest) ∧
     build_onedocker_args svc game_name mpc_party (address server_ips 0)
       game_arg w = (Ok (binary_name, cmd_args), w1)) ∧
  ∀ svc', same_but_package svc svc' →
    ∃ binary_name',
      convert_cmd_args_list svc' game_name game_args mpc_party server_ips w
      = (Ok (binary_name', commands),
         (convert_cmd_args_list svc game_name game_args mpc_party server_ips
            w).2).
Proof.
  intros Hok. split.
  - destruct (rejected_or_accepted mpc_party server_ips game_args)
      as [Hrej|(l & -> & Hne & Hguard)].
    { apply (rejected_unseen svc game_name mpc_party server_ips game_args w)
        in Hrej as (_ & _ & msg & Hmsg). by rewrite Hmsg in Hok. }
    destruct (accepted_seen svc game_name mpc_party server_ips l w Hne Hguard)
      as (Hcalls & Hlink & Hend).
    rewrite Hok in Hend. destruct Hend as (outs & Hlen & Hrs & _ & Hhead).
    destruct l as [|g rest]; [done|].
    destruct outs as [|[p cmd] outs]; [done|].
    destruct (calls_of _ w) as [|c calls]; [done|].
    rewrite !fmap_cons in Hrs. injection Hrs as Hr _.
    simpl in Hhead, Hlink. injection Hhead as ->. destruct Hlink as [Hw _].
    destruct (Hcalls 0 c eq_refl) as [_ _ Harg _ _ Hres _].
    simpl in Harg, Hres.
    injection Harg as ->. rewrite Hw, Hr in Hres.
    by exists (call_game_arg c), rest, cmd, (call_after c).
  - intros svc' Hsame.
    pose proof (agree_convert svc svc' game_name game_args mpc_party
                  server_ips Hsame w) as Hagree.
    destruct (convert_cmd_args_list svc _ _ _ _ w) as [r w1].
    simpl in Hok. subst r.
    destruct (convert_cmd_args_list svc' _ _ _ _ w) as [[[b' cmds']|e'] w1'];
      [|done].
    destruct Hagree as [Hc <-]. simpl in Hc. subst cmds'. by eauto.
Qed.

(** Two containers that resolve to two packages, [f1] and [f2]: the call
    succeeds and returns the first. *)
Lemma binary_name_is_first_package_witness :
  (∃ game_arg rest cmd_args w1,
     Some [f1; f2] = Some (game_arg :: rest) ∧
     build_onedocker_args own_pkg_svc "lift" SERVER (address None 0)
       game_arg () = (Ok ("f1", cmd_args), w1)) ∧
  ∀ svc', same_but_package own_pkg_svc svc' →
    ∃ binary_name',
      convert_cmd_args_list svc' "lift" (Some [f1; f2]) SERVER None ()
      = (Ok (binary_name', ["- f1"; "- f2"]),
         (convert_cmd_args_list own_pkg_svc "lift" (Some [f1; f2]) SERVER None
            ()).2).
Proof.
  apply (binary_name_is_first_package own_pkg_svc "lift" (Some [f1; f2])
           SERVER None () "f1" ["- f1"; "- f2"]).
  vm_compute. reflexivity.
Defined.

(** C3, as the design document states it, fails: with fewer addresses than
    containers the call does not fail before the first call of the
    collaborator.  Two containers, one address: the first container is
    resolved before the call raises. *)
Lemma short_server_ips_reach_resolver :
  ¬ fails_before_any_call
      (convert_cmd_args_list (spy (echo_svc "lift_pkg")) "lift"
         (Some [f1; f2]) CLIENT (Some ["10.0.0.1"])) ().
Proof. intros [_ H]. vm_compute in H. discriminate H. Qed.

(** C3, amended.  For the client party and fewer addresses than
    containers the call always raises, so no result, truncated or not, is
    returned; it need not raise before the collaborator is called.  With
    no address at all it is rejected before any call of the collaborator.
    Otherwise the containers are resolved in order, at most as many as
    there are addresses, and the call raises one of: what the last of
    these calls raised; the [TypeError] of the call expression for the
    next container, when its arguments repeat a keyword of the call; or,
    after a successful call for every address, [IndexError]. *)
Theorem short_server_ips_raise {Value W} (svc : MPCGameService Value W)
    game_name (game_args : list (gmap string Value)) (a : list string) w :
  length a < length game_args →
  let calls :=
    calls_of (convert_cmd_args_list (spy svc) game_name (Some game_args)
                CLIENT (Some a)) w in
  ∃ e,
    (convert_cmd_args_list svc game_name (Some game_args) CLIENT (Some a)
       w).1 = Raise e ∧
    calls_from svc game_name game_args CLIENT (Some a) 0 calls ∧
    length calls ≤ length a ∧
    match a with
    | [] => e = ValueError "Missing server_ips" ∧ calls = []
    | _ :: _ =>
        ∃ outs,
          call_result <$> calls = (Ok <$> outs) ++ [Raise e]
          ∨ (call_result <$> calls = Ok <$> outs ∧
             length outs < length a ∧
             ∃ g k, game_args !! length outs = Some g ∧
                    repeated_keyword g = Some k ∧ e = multiple_values k)
          ∨ (call_result <$> calls = Ok <$> outs ∧
             length outs = length a ∧
             e = IndexError "list index out of range")
    end.
Proof.
  intros Hshort calls.
  assert (game_args ≠ []) as Hne by (intros ->; simpl in Hshort; lia).
  destruct a as [|ip a].
  - exists (ValueError "Missing server_ips").
    assert (calls = []) as Hnil.
    { apply (rejected_unseen svc game_name CLIENT (Some []) (Some game_args) w).
      by right. }
    rewrite reject_server_ips by (by destruct game_args).
    rewrite Hnil. split; [done|]. split; [by intros j c|]. done.
  - destruct (accepted_seen svc game_name CLIENT (Some (ip :: a)) game_args w)
      as (Hcalls & _ & Hend); [done..|].
    fold calls in Hcalls, Hend.
    pose proof (calls_within_addresses _ _ _ _ _ _ Hcalls) as Hle.
    destruct (convert_cmd_args_list svc _ _ _ _ w).1 as [[b cmds]|e].
    + destruct Hend as (outs & Hlen & Hrs & _).
      apply (f_equal length) in Hrs. rewrite !length_fmap in Hrs. lia.
    + exists e. split; [done|]. split; [done|]. split; [done|].
      destruct Hend
        as (outs & Hlen & [Hrs|[(Hrs & -> & Hno)|(Hrs & Hhas & Hkw)]]);
        exists outs.
      * by left.
      * right; right. split; [done|]. split; [|done].
        pose proof (f_equal length Hrs) as Hl. rewrite !length_fmap in Hl.
        unfold has_address in Hno. lia.
      * right; left. split; [done|]. split; [exact Hhas|exact Hkw].
Qed.

(** Two containers and one address: one call, then [IndexError]. *)
Lemma short_server_ips_raise_witness :
  let calls :=
    calls_of (convert_cmd_args_list (spy (echo_svc "lift_pkg")) "lift"
                (Some [f1; f2]) CLIENT (Some ["10.0.0.1"])) () in
  ∃ e,
    (convert_cmd_args_list (echo_svc "lift_pkg") "lift" (Some [f1; f2])
       CLIENT (Some ["10.0.0.1"]) ()).1 = Raise e ∧
    calls_from (echo_svc "lift_pkg") "lift" [f1; f2] CLIENT
      (Some ["10.0.0.1"]) 0 calls ∧
    length calls ≤ length ["10.0.0.1"] ∧
    ∃ outs,
      call_result <$> calls = (Ok <$> outs) ++ [Raise e]
      ∨ (call_result <$> calls = Ok <$> outs ∧
         length outs < length ["10.0.0.1"] ∧
         ∃ g k, [f1; f2] !! length outs = Some g ∧
                repeated_keyword g = Some k ∧ e = multiple_values k)
      ∨ (call_result <$> calls = Ok <$> outs ∧
         length outs = length ["10.0.0.1"] ∧
         e = IndexError "list index out of range").
Proof.
  apply (short_server_ips_raise (echo_svc "lift_pkg") "lift" [f1; f2]
           ["10.0.0.1"] ()).
  simpl. lia.
Defined.

(** C4.  An empty [game_args] is rejected with [ValueError], whatever the
    game name, the party and the addresses: the collaborator is not
    called, its world is left as it was, and nothing is returned.  The
    same holds when [game_args] is [None]. *)
Theorem empty_game_args_rejected {Value W} (svc : MPCGameService Value W)
    game_name mpc_party server_ips w :
  convert_cmd_args_list svc game_name (Some []) mpc_party server_ips w
  = (Raise (ValueError "Missing game_args or it's empty"), w) ∧
  fails_before_any_call
    (convert_cmd_args_list (spy svc) game_name (Some []) mpc_party server_ips)
    w ∧
  convert_cmd_args_list svc game_name None mpc_party server_ips w
  = (Raise (ValueError "Missing game_args or it's empty"), w) ∧
  fails_before_any_call
    (convert_cmd_args_list (spy svc) game_name None mpc_party server_ips) w.
Proof. done. Qed.

(** C5, as the design document states it, fails in its second half: the
    server party without addresses can fail although no call of the
    collaborator failed.  The one container repeats the keyword
    [server_ip]: the call expression raises [TypeError], the collaborator
    is not called, so every call it received (none) succeeded, and yet
    the call raises. *)
Lemma server_call_fails_without_failed_call :
  let calls :=
    calls_of (convert_cmd_args_list (spy (echo_svc "lift_pkg")) "lift"
                (Some [f1_with_server_ip]) SERVER None) () in
  Forall (λ c, is_ok (call_result c) = true) calls ∧
  (convert_cmd_args_list (echo_svc "lift_pkg") "lift"
     (Some [f1_with_server_ip]) SERVER None ()).1
  = Raise (multiple_values "server_ip").
Proof. split; [vm_compute; constructor|vm_compute; reflexivity]. Qed.

(** C5, amended.  For at least one container: the client party without
    addresses is rejected with [ValueError] before any call of the
    collaborator; the server party without addresses gives every call no
    address, and succeeds, with one call and one command per container,
    whenever no container repeats a keyword of the call and every call it
    makes succeeds. *)
Theorem server_ips_only_for_client {Value W} (svc : MPCGameService Value W)
    game_name (game_args : list (gmap string Value)) w :
  game_args ≠ [] →
  (convert_cmd_args_list svc game_name (Some game_args) CLIENT None w
   = (Raise (ValueError "Missing server_ips"), w) ∧
   fails_before_any_call
     (convert_cmd_args_list (spy svc) game_name (Some game_args) CLIENT None)
     w) ∧
  let calls :=
    calls_of (convert_cmd_args_list (spy svc) game_name (Some game_args)
                SERVER None) w in
  Forall (λ c, call_server_ip c = None) calls ∧
  (Forall (λ g, repeated_keyword g = None) game_args →
   Forall (λ c, is_ok (call_result c) = true) calls →
   length calls = length game_args ∧
   ∃ binary_name commands,
     (convert_cmd_args_list svc game_name (Some game_args) SERVER None w).1
     = Ok (binary_name, commands) ∧
     length commands = length game_args).
Proof.
  intros Hne. split.
  - assert (py_not (Some game_args) = false) as Hnot by (by destruct game_args).
    split; [by apply reject_server_ips|].
    unfold fails_before_any_call, outcome_of, calls_of.
    by rewrite reject_server_ips.
  - intros calls.
    destruct (accepted_seen svc game_name SERVER None game_args w)
      as (Hcalls & _ & Hend); [done..|].
    fold calls in Hcalls, Hend. split.
    + apply Forall_lookup. intros j c Hj.
      by destruct (Hcalls j c Hj) as [_ _ _ _ ? _ _].
    + intros Hkeys Hall.
      destruct (convert_cmd_args_list svc _ _ _ _ w).1 as [[b cmds]|e].
      * destruct Hend as (outs & Hlen & Hrs & -> & _).
        apply (f_equal length) in Hrs. rewrite !length_fmap in Hrs.
        split; [lia|]. exists b, (outs.*2). by rewrite length_fmap.
      * destruct Hend
          as (outs & Hlen & [Hrs|[(_ & _ & Hno)|(_ & _ & g & k & Hg & Hk & _)]]).
        -- assert (Raise e ∈ call_result <$> calls) as Hin.
           { rewrite Hrs. apply elem_of_app. right. constructor. }
           apply list_elem_of_fmap in Hin as (c & Hc & Hin).
           rewrite Forall_forall in Hall.
           apply Hall in Hin. by rewrite <- Hc in Hin.
        -- by destruct Hno.
        -- rewrite Forall_lookup in Hkeys. apply Hkeys in Hg. congruence.
Qed.

(** The no-address scenario of the design document: no container
    repeats a keyword, both calls succeed, and so does the whole. *)
Lemma server_ips_only_for_client_witness :
  let calls :=
    calls_of (convert_cmd_args_list (spy (echo_svc "lift_pkg")) "lift"
                (Some [f1; f2]) SERVER None) () in
  Forall (λ c, call_server_ip c = None) calls ∧
  length calls = length [f1; f2] ∧
  ∃ binary_name commands,
    (convert_cmd_args_list (echo_svc "lift_pkg") "lift" (Some [f1; f2])
       SERVER None ()).1 = Ok (binary_name, commands) ∧
    length commands = length [f1; f2].
Proof.
  destruct (server_ips_only_for_client (echo_svc "lift_pkg") "lift" [f1; f2] ())
    as (_ & Hnone & Hok); [discriminate|].
  split; [exact Hnone|]. apply Hok.
  - constructor; [exact f1_keywords|]. constructor; [exact f2_keywords|].
    constructor.
  - vm_compute. repeat constructor.
Defined.

(** C6.  If the call for container [i] raises, the whole call raises the
    same exception at once: the world is the one that call left, the
    call was the last one, each of the containers [0..i] was called
    exactly once, in order (no retry), the calls before it had succeeded,
    and no result is returned. *)
Theorem resolver_error_propagates {Value W} (svc : MPCGameService Value W)
    game_name game_args mpc_party server_ips w i c e :
  let calls :=
    calls_of (convert_cmd_args_list (spy svc) game_name game_args mpc_party
                server_ips) w in
  calls !! i = Some c →
  call_result c = Raise e →
  convert_cmd_args_list svc game_name game_args mpc_party server_ips w
  = (Raise e, call_after c) ∧
  length calls = S i ∧
  (∃ l, game_args = Some l ∧
        calls_from svc game_name l mpc_party server_ips 0 calls) ∧
  ∀ j c', j < i → calls !! j = Some c' → is_ok (call_result c') = true.
Proof.
  intros calls Hi He.
  destruct (rejected_or_accepted mpc_party server_ips game_args)
    as [Hrej|(l & -> & Hne & Hguard)].
  { apply (rejected_unseen svc game_name mpc_party server_ips game_args w)
      in Hrej as (Hnil & _). fold calls in Hnil. by rewrite Hnil in Hi. }
  destruct (accepted_seen svc game_name mpc_party server_ips l w Hne Hguard)
    as (Hcalls & Hlink & Hend).
  fold calls in Hcalls, Hlink, Hend.
  assert ((call_result <$> calls) !! i = Some (Raise e)) as Hri
    by (by rewrite list_lookup_fmap, Hi; simpl; rewrite He).
  destruct (convert_cmd_args_list svc _ _ _ _ w) as [r w'] eqn:Hrun.
  simpl in Hlink, Hend. destruct r as [[b cmds]|e0].
  { destruct Hend as (outs & _ & Hrs & _).
    by destruct (no_failure_among_successes _ _ _ _ Hri Hrs). }
  destruct Hend as (outs & _ & [Hrs|[(Hrs & _)|(Hrs & _)]]);
    [|by destruct (no_failure_among_successes _ _ _ _ Hri Hrs)..].
  destruct (failure_is_last _ _ _ _ _ Hri Hrs) as [-> <-].
  assert (length calls = S (length outs)) as Hlen.
  { apply (f_equal length) in Hrs.
    rewrite length_app, !length_fmap in Hrs. simpl in Hrs. lia. }
  split; [|split; [done|split; [by eauto|]]].
  - f_equal. apply (linked_last calls w); [done|].
    rewrite last_lookup, Hlen. done.
  - intros j c' Hj Hc'.
    assert ((call_result <$> calls) !! j = Some (call_result c')) as Hrj
      by (by rewrite list_lookup_fmap, Hc').
    rewrite Hrs, lookup_app_l, list_lookup_fmap in Hrj
      by (by rewrite length_fmap).
    destruct (outs !! j); simpl in Hrj; [|done].
    by injection Hrj as <-.
Qed.

(** Three containers, the second of which the game service rejects: two
    calls, and the exception of the second. *)
Lemma resolver_error_propagates_witness :
  let calls :=
    calls_of (convert_cmd_args_list (spy strict_svc) "lift"
                (Some [f1; no_file; f2]) SERVER None) 0 in
  let c := {| call_game_name := "lift"; call_mpc_party := SERVER;
              call_server_ip := None; call_game_arg := no_file;
              call_before := 1;
              call_result := Raise (OtherError "KeyError" "input_filenames");
              call_after := 2 |} in
  convert_cmd_args_list strict_svc "lift" (Some [f1; no_file; f2]) SERVER None 0
  = (Raise (OtherError "KeyError" "input_filenames"), call_after c) ∧
  length calls = 2 ∧
  (∃ l, Some [f1; no_file; f2] = Some l ∧
        calls_from strict_svc "lift" l SERVER None 0 calls) ∧
  ∀ j c', j < 1 → calls !! j = Some c' → is_ok (call_result c') = true.
Proof.
  intros calls c.
  apply (resolver_error_propagates strict_svc "lift" (Some [f1; no_file; f2])
           SERVER None 0 1 c (OtherError "KeyError" "input_filenames")).
  - vm_compute. reflexivity.
  - reflexivity.
Defined.

(** C7.  The publisher is the server and the partner is the client; any
    other value raises [ValueError] with a message that ends in the
    [str()] of the value, and only the two roles are mapped. *)
Theorem role_to_party :
  map_private_computation_role_to_mpc_party (Role PUBLISHER) = Ok SERVER ∧
  map_private_computation_role_to_mpc_party (Role PARTNER) = Ok CLIENT ∧
  (∀ s, map_private_computation_role_to_mpc_party (NotARole s)
        = Raise (ValueError ("No mpc party defined for " +:+ s))) ∧
  ∀ a p, map_private_computation_role_to_mpc_party a = Ok p →
         a = Role (match p with SERVER => PUBLISHER | CLIENT => PARTNER end).
Proof.
  split; [done|]. split; [done|]. split; [done|].
  intros [[]|s] p [= <-]; done.
Qed.

(** C8, as the design document states it, fails: the constructor does not
    look at [task_definition].  With both services present and no task
    definition, and a [OneDockerService] that accepts what it is given,
    construction succeeds. *)
Lemma task_definition_not_validated :
  ¬ ∃ e, MPCService_init keep_onedocker (Some "ecs") None (Some "games")
         = Raise e.
Proof. intros [e He]. vm_compute in He. discriminate He. Qed.

(** C8, amended.  The constructor validates the container service and the
    game service: without either it raises [ValueError] with a message
    that names both, before [OneDockerService] is built.  With both it
    builds [OneDockerService] from the container service and the task
    definition as given, absent or not, and stores the three arguments
    unchanged; it fails only if [OneDockerService] does. *)
Theorem init_validates_services
    {ContainerService GameService OneDocker : Type}
    `{!PyStr ContainerService, !PyStr GameService}
    (OneDockerService : ContainerService → option string → result OneDocker)
    (c : option ContainerService) (t : option string) (g : option GameService)
    (c' : ContainerService) (g' : GameService) :
  MPCService_init OneDockerService (@None ContainerService) t g
  = Raise (ValueError ("Dependency is missing. container_svc=None, mpc_game_svc="
                       +:+ py_str g)) ∧
  MPCService_init OneDockerService c t (@None GameService)
  = Raise (ValueError ("Dependency is missing. container_svc=" +:+ py_str c
                       +:+ ", mpc_game_svc=None")) ∧
  MPCService_init OneDockerService (Some c') t (Some g')
  = (λ od, {| container_svc := c'; task_definition := t;
              mpc_game_svc := g'; onedocker_svc := od |})
      <$> OneDockerService c' t.
Proof.
  split; [done|]. split; [by destruct c|].
  simpl. by destruct (OneDockerService c' t).
Qed.

(** C9.  When the loop runs, that is for at least one container and past
    the guards, the check after it never raises: if the loop ends without
    an exception the binary name is set and the call returns it with one
    command per container, and if the call raises, it is the exception
    the loop raised. *)
Theorem binary_name_set_after_loop {Value W} (svc : MPCGameService Value W)
    game_name (game_args : list (gmap string Value)) mpc_party server_ips w :
  1 ≤ length game_args →
  (mpc_party = CLIENT → py_not server_ips = false) →
  match convert_loop svc game_name (Some game_args) mpc_party server_ips w with
  | (Ok (binary_name, cmd_args_list), w') =>
      ∃ b, binary_name = Some b ∧
        length cmd_args_list = length game_args ∧
        convert_cmd_args_list svc game_name (Some game_args) mpc_party
          server_ips w = (Ok (b, cmd_args_list), w')
  | (Raise e, w') =>
      convert_cmd_args_list svc game_name (Some game_args) mpc_party
        server_ips w = (Raise e, w')
  end.
Proof.
  intros Hn Hguard.
  destruct game_args as [|g rest] eqn:Hargs; [simpl in Hn; lia|].
  rewrite past_guards by done. rewrite <- Hargs in *.
  rewrite bind_run.
  pose proof (simulates_loop svc game_name (Some game_args) mpc_party
                server_ips w []) as Hsim.
  destruct (convert_loop svc _ _ _ _ w) as [[[bn cmds]|e] w'] eqn:Hloop;
    [|done].
  destruct (convert_loop (spy svc) _ _ _ _ (w, [])) as [r [w1 log]] eqn:Hspy.
  simpl in Hsim. injection Hsim as -> ->.
  apply loop_run in Hspy as (calls & _ & _ & _ & outs & Hlen & _ & -> & ->).
  destruct outs as [|[p cmd] outs]; [subst; simpl in Hlen; lia|].
  exists p. split; [done|]. split; [by rewrite app_nil_l, length_fmap|]. done.
Qed.

Lemma binary_name_set_after_loop_witness :
  match convert_loop (echo_svc "lift_pkg") "lift" (Some [f1; f2]) SERVER None
          () with
  | (Ok (binary_name, cmd_args_list), w') =>
      ∃ b, binary_name = Some b ∧
        length cmd_args_list = length [f1; f2] ∧
        convert_cmd_args_list (echo_svc "lift_pkg") "lift" (Some [f1; f2])
          SERVER None () = (Ok (b, cmd_args_list), w')
  | (Raise e, w') =>
      convert_cmd_args_list (echo_svc "lift_pkg") "lift" (Some [f1; f2])
        SERVER None () = (Raise e, w')
  end.
Proof.
  apply (binary_name_set_after_loop (echo_svc "lift_pkg") "lift" [f1; f2]
           SERVER None ()).
  - simpl. lia.
  - discriminate.
Defined.

(** C10.  For the client party an empty list of addresses is rejected as
    a missing one is: the same [ValueError], before any call of the
    collaborator. *)
Theorem empty_server_ips_rejected {Value W} (svc : MPCGameService Value W)
    game_name (game_args : list (gmap string Value)) w :
  game_args ≠ [] →
  convert_cmd_args_list svc game_name (Some game_args) CLIENT (Some []) w
  = (Raise (ValueError "Missing server_ips"), w) ∧
  convert_cmd_args_list svc game_name (Some game_args) CLIENT (Some []) w
  = convert_cmd_args_list svc game_name (Some game_args) CLIENT None w ∧
  fails_before_any_call
    (convert_cmd_args_list (spy svc) game_name (Some game_args) CLIENT
       (Some [])) w.
Proof.
  intros Hne.
  assert (py_not (Some game_args) = false) as Hnot by (by destruct game_args).
  unfold fails_before_any_call, outcome_of, calls_of.
  by rewrite !reject_server_ips.
Qed.

Lemma empty_server_ips_rejected_witness :
  convert_cmd_args_list (echo_svc "lift_pkg") "lift" (Some [f1; f2]) CLIENT
    (Some []) ()
  = (Raise (ValueError "Missing server_ips"), ()) ∧
  convert_cmd_args_list (echo_svc "lift_pkg") "lift" (Some [f1; f2]) CLIENT
    (Some []) ()
  = convert_cmd_args_list (echo_svc "lift_pkg") "lift" (Some [f1; f2]) CLIENT
      None () ∧
  fails_before_any_call
    (convert_cmd_args_list (spy (echo_svc "lift_pkg")) "lift" (Some [f1; f2])
       CLIENT (Some [])) ().
Proof.
  apply (empty_server_ips_rejected (echo_svc "lift_pkg") "lift" [f1; f2] ()).
  discriminate.
Defined.

(** * Further properties of [convert_cmd_args_list] *)

(** ** Every run, whatever its outcome *)

(** The calls made are for the containers [0], [1], ... in this order,
    without a gap and without a repetition, never more than there are
    containers; each carries the game name and the party of the
    invocation, the arguments of its container and the address at its
    position; and a container is resolved only after all the containers
    before it were resolved successfully. *)
Theorem calls_are_an_ordered_prefix {Value W} (svc : MPCGameService Value W)
    game_name game_args mpc_party server_ips w :
  let calls :=
    calls_of (convert_cmd_args_list (spy svc) game_name game_args mpc_party
                server_ips) w in
  length calls ≤ length (default [] game_args) ∧
  ∀ j c, calls !! j = Some c →
    call_game_name c = game_name ∧
    call_mpc_party c = mpc_party ∧
    default [] game_args !! j = Some (call_game_arg c) ∧
    call_server_ip c = address server_ips j ∧
    build_onedocker_args svc game_name mpc_party (call_server_ip c)
      (call_game_arg c) (call_before c) = (call_result c, call_after c) ∧
    ∀ j' c', j' < j → calls !! j' = Some c' → is_ok (call_result c') = true.
Proof.
  intros calls.
  destruct (rejected_or_accepted mpc_party server_ips game_args)
    as [Hrej|(l & -> & Hne & Hguard)].
  { apply (rejected_unseen svc game_name mpc_party server_ips game_args w)
      in Hrej as (Hnil & _). fold calls in Hnil. rewrite Hnil.
    split; [simpl; lia|]. by intros j c. }
  destruct (accepted_seen svc game_name mpc_party server_ips l w Hne Hguard)
    as (Hcalls & _ & Hend).
  fold calls in Hcalls, Hend. simpl.
  split; [by eapply calls_within_game_args|].
  intros j c Hj. destruct (Hcalls j c Hj) as [? ? ? _ Hip Hres _]. simpl in *.
  split; [done|]. split; [done|]. split; [done|]. split; [done|].
  split; [by rewrite Hip|].
  intros j' c' Hlt Hj'.
  assert (∃ outs, call_result <$> calls = Ok <$> outs
                  ∨ ∃ e, call_result <$> calls = (Ok <$> outs) ++ [Raise e])
    as (outs & Hrs).
  { destruct (convert_cmd_args_list svc _ _ _ _ w).1 as [[b cmds]|e].
    - destruct Hend as (outs & _ & ? & _). by eauto.
    - destruct Hend as (outs & _ & [?|[(? & _)|(? & _)]]); by eauto. }
  assert ((call_result <$> calls) !! j' = Some (call_result c')) as Hr
    by (by rewrite list_lookup_fmap, Hj').
  assert (j' < length outs) as Hout.
  { apply lookup_lt_Some in Hj.
    assert (length calls ≤ S (length outs)); [|lia].
    destruct Hrs as [Hrs|[e Hrs]]; apply (f_equal length) in Hrs;
      rewrite ?length_app, !length_fmap in Hrs; simpl in Hrs; lia. }
  assert ((call_result <$> calls) !! j' = Ok <$> outs !! j') as Hr'.
  { destruct Hrs as [->|[e ->]].
    - by rewrite list_lookup_fmap.
    - rewrite lookup_app_l by (by rewrite length_fmap).
      by rewrite list_lookup_fmap. }
  rewrite Hr in Hr'. destruct (outs !! j'); simpl in Hr'; [|done].
  by injection Hr' as ->.
Qed.

(** ** The ways the call can fail, and when it succeeds *)

(** An exception of the call is one of five: the rejection of an empty
    or missing [game_args]; the rejection of empty or missing addresses
    for the client party (in both cases the collaborator was not called);
    the exception of the last call of the collaborator; [IndexError],
    after as many successful calls as there are addresses, when there are
    fewer addresses than containers; or the [TypeError] of the call
    expression, after a successful call for every container before the
    one whose arguments repeat a keyword of the call. *)
Theorem failure_modes {Value W} (svc : MPCGameService Value W)
    game_name game_args mpc_party server_ips w e :
  (convert_cmd_args_list svc game_name game_args mpc_party server_ips w).1
  = Raise e →
  let calls :=
    calls_of (convert_cmd_args_list (spy svc) game_name game_args mpc_party
                server_ips) w in
  (e = ValueError "Missing game_args or it's empty" ∧
   py_not game_args = true ∧ calls = [])
  ∨ (e = ValueError "Missing server_ips" ∧
     mpc_party = CLIENT ∧ py_not server_ips = true ∧ calls = [])
  ∨ (∃ c, last calls = Some c ∧ call_result c = Raise e)
  ∨ (e = IndexError "list index out of range" ∧
     Forall (λ c, is_ok (call_result c) = true) calls ∧
     ∃ a, server_ips = Some a ∧ length calls = length a ∧
          length a < length (default [] game_args))
  ∨ (Forall (λ c, is_ok (call_result c) = true) calls ∧
     ∃ g k, default [] game_args !! length calls = Some g ∧
            repeated_keyword g = Some k ∧ e = multiple_values k).
Proof.
  intros He calls.
  destruct (py_not game_args) eqn:Hga.
  { left. rewrite reject_game_args in He by done. injection He as <-.
    split; [done|]. split; [done|].
    apply (rejected_unseen svc game_name mpc_party server_ips game_args w).
    by left. }
  destruct (rejected_or_accepted mpc_party server_ips game_args)
    as [[Hrej|[-> Hips]]|(l & -> & Hne & Hguard)]; [congruence| |].
  { right; left. rewrite reject_server_ips in He by done. injection He as <-.
    split; [done|]. split; [done|]. split; [done|].
    apply (rejected_unseen svc game_name CLIENT server_ips game_args w).
    by right. }
  right; right.
  destruct (accepted_seen svc game_name mpc_party server_ips l w Hne Hguard)
    as (Hcalls & _ & Hend).
  fold calls in Hcalls, Hend. rewrite He in Hend.
  destruct Hend
    as (outs & Hlen & [Hrs|[(Hrs & -> & Hno)|(Hrs & _ & g & k & Hg & Hk & ->)]]).
  - left. by apply outcomes_last_raises in Hrs as [_ ?].
  - right; left. apply outcomes_all_ok in Hrs as [Hl Hall].
    split; [done|]. split; [done|].
    unfold has_address in Hno. destruct server_ips as [a|]; [|done].
    exists a. split; [done|].
    pose proof (calls_within_addresses _ _ _ _ _ _ Hcalls). simpl. lia.
  - right; right. apply outcomes_all_ok in Hrs as [Hl Hall].
    split; [done|]. exists g, k. simpl. by rewrite Hl.
Qed.

(** Two containers, one address: the fourth way. *)
Lemma failure_modes_witness :
  let calls :=
    calls_of (convert_cmd_args_list (spy (echo_svc "lift_pkg")) "lift"
                (Some [f1; f2]) CLIENT (Some ["10.0.0.1"])) () in
  let e := IndexError "list index out of range" in
  (e = ValueError "Missing game_args or it's empty" ∧
   py_not (Some [f1; f2]) = true ∧ calls = [])
  ∨ (e = ValueError "Missing server_ips" ∧
     CLIENT = CLIENT ∧ py_not (Some ["10.0.0.1"]) = true ∧ calls = [])
  ∨ (∃ c, last calls = Some c ∧ call_result c = Raise e)
  ∨ (e = IndexError "list index out of range" ∧
     Forall (λ c, is_ok (call_result c) = true) calls ∧
     ∃ a, Some ["10.0.0.1"] = Some a ∧ length calls = length a ∧
          length a < length (default [] (Some [f1; f2])))
  ∨ (Forall (λ c, is_ok (call_result c) = true) calls ∧
     ∃ g k, default [] (Some [f1; f2]) !! length calls = Some g ∧
            repeated_keyword g = Some k ∧ e = multiple_values k).
Proof.
  apply (failure_modes (echo_svc "lift_pkg") "lift" (Some [f1; f2]) CLIENT
           (Some ["10.0.0.1"]) ()).
  vm_compute. reflexivity.
Defined.

(** The call returns a result exactly when the collaborator was called
    at least once, once per container, and every call returned. *)
Theorem succeeds_iff_every_call_does {Value W} (svc : MPCGameService Value W)
    game_name game_args mpc_party server_ips w :
  let calls :=
    calls_of (convert_cmd_args_list (spy svc) game_name game_args mpc_party
                server_ips) w in
  is_ok (convert_cmd_args_list svc game_name game_args mpc_party server_ips
           w).1 = true
  ↔ calls ≠ [] ∧
    length calls = length (default [] game_args) ∧
    Forall (λ c, is_ok (call_result c) = true) calls.
Proof.
  intros calls.
  destruct (rejected_or_accepted mpc_party server_ips game_args)
    as [Hrej|(l & -> & Hne & Hguard)].
  { apply (rejected_unseen svc game_name mpc_party server_ips game_args w)
      in Hrej as (Hnil & _ & msg & Hmsg). fold calls in Hnil.
    rewrite Hmsg, Hnil. split; [done|]. by intros [? _]. }
  destruct (accepted_seen svc game_name mpc_party server_ips l w Hne Hguard)
    as (Hcalls & _ & Hend).
  fold calls in Hcalls, Hend. simpl.
  destruct (convert_cmd_args_list svc _ _ _ _ w).1 as [[b cmds]|e]; simpl.
  - destruct Hend as (outs & Hlen & Hrs & _).
    apply outcomes_all_ok in Hrs as [Hl Hall].
    split; [|done]. intros _. split; [|split; [lia|done]].
    destruct calls; [|done]. destruct l; [done|]. simpl in *. lia.
  - split; [done|]. intros (_ & Hl & Hall).
    destruct Hend as (outs & Hlen & [Hrs|[(Hrs & _)|(Hrs & _)]]).
    + apply outcomes_last_raises in Hrs as (_ & c & Hc & Hr).
      rewrite last_lookup in Hc. rewrite Forall_lookup in Hall.
      apply Hall in Hc. by rewrite Hr in Hc.
    + apply outcomes_all_ok in Hrs as [? _]. lia.
    + apply outcomes_all_ok in Hrs as [? _]. lia.
Qed.

(** ** Addresses *)

(** The guard on addresses is for the client party only, the indexing is
    not: the server party with an empty list of addresses passes the
    guards and raises [IndexError] at the first container, before any
    call of the collaborator. *)
Theorem server_with_no_address_raises {Value W} (svc : MPCGameService Value W)
    game_name (game_args : list (gmap string Value)) w :
  game_args ≠ [] →
  convert_cmd_args_list svc game_name (Some game_args) SERVER (Some []) w
  = (Raise (IndexError "list index out of range"), w) ∧
  fails_before_any_call
    (convert_cmd_args_list (spy svc) game_name (Some game_args) SERVER
       (Some [])) w.
Proof.
  intros Hne. destruct game_args as [|g rest]; [done|]. done.
Qed.

Lemma server_with_no_address_raises_witness :
  convert_cmd_args_list (echo_svc "lift_pkg") "lift" (Some [f1; f2]) SERVER
    (Some []) ()
  = (Raise (IndexError "list index out of range"), ()) ∧
  fails_before_any_call
    (convert_cmd_args_list (spy (echo_svc "lift_pkg")) "lift" (Some [f1; f2])
       SERVER (Some [])) ().
Proof.
  apply (server_with_no_address_raises (echo_svc "lift_pkg") "lift" [f1; f2] ()).
  discriminate.
Defined.

(** Addresses beyond the number of containers are ignored: with at
    least as many addresses as containers, more addresses change neither
    the outcome nor the collaborator's world. *)
Theorem surplus_addresses_ignored {Value W} (svc : MPCGameService Value W)
    game_name (game_args : list (gmap string Value)) mpc_party a extra w :
  length game_args ≤ length a →
  convert_cmd_args_list svc game_name (Some game_args) mpc_party
    (Some (a ++ extra)) w
  = convert_cmd_args_list svc game_name (Some game_args) mpc_party (Some a) w.
Proof.
  intros Hlen. destruct game_args as [|g rest]; [done|].
  assert (py_not (Some a) = false) as Ha
    by (destruct a; [simpl in Hlen; lia|done]).
  assert (py_not (Some (a ++ extra)) = false) as Hae
    by (destruct a; [simpl in Hlen; lia|done]).
  rewrite !past_guards by done. rewrite !bind_run.
  unfold convert_loop. rewrite !bind_run. cbn [py_len mret M_ret].
  rewrite (for_each_ext
             (convert_step svc game_name (Some (g :: rest)) mpc_party
                (Some (a ++ extra)))
             (convert_step svc game_name (Some (g :: rest)) mpc_party
                (Some a))); [done|].
  intros i Hi s w'. apply elem_of_seq in Hi.
  apply step_more_addresses. lia.
Qed.

Lemma surplus_addresses_ignored_witness :
  convert_cmd_args_list (echo_svc "lift_pkg") "lift" (Some [f1; f2]) CLIENT
    (Some (["10.0.0.1"; "10.0.0.2"] ++ ["10.0.0.3"])) ()
  = convert_cmd_args_list (echo_svc "lift_pkg") "lift" (Some [f1; f2]) CLIENT
      (Some ["10.0.0.1"; "10.0.0.2"]) ().
Proof.
  apply (surplus_addresses_ignored (echo_svc "lift_pkg") "lift" [f1; f2] CLIENT
           ["10.0.0.1"; "10.0.0.2"] ["10.0.0.3"] ()).
  simpl. lia.
Defined.

(** ** More containers *)

(** The call for a list of containers begins as the call for any
    non-empty prefix of it: if the prefix raises, the whole raises the
    same exception in the same world; if the prefix succeeds and the
    whole does too, they return the same binary name and the commands of
    the prefix are the first commands of the whole. *)
Theorem more_game_args_extend_the_run {Value W} (svc : MPCGameService Value W)
    game_name (l l' : list (gmap string Value)) mpc_party server_ips w :
  l ≠ [] →
  match convert_cmd_args_list svc game_name (Some l) mpc_party server_ips w with
  | (Raise e, w') =>
      convert_cmd_args_list svc game_name (Some (l ++ l')) mpc_party
        server_ips w = (Raise e, w')
  | (Ok (binary_name, commands), _) =>
      ∀ binary_name' commands' w'',
        convert_cmd_args_list svc game_name (Some (l ++ l')) mpc_party
          server_ips w = (Ok (binary_name', commands'), w'') →
        binary_name' = binary_name ∧ commands `prefix_of` commands'
  end.
Proof.
  intros Hne.
  destruct (decide (mpc_party = CLIENT ∧ py_not server_ips = true))
    as [[-> Hips]|Hguard].
  { rewrite !reject_server_ips by (done || by destruct l). done. }
  assert (mpc_party = CLIENT → py_not server_ips = false) as Hg.
  { intros ->. destruct (py_not server_ips); [|done]. by destruct Hguard. }
  destruct l as [|g rest] eqn:Hl; [done|].
  rewrite <- app_comm_cons, !past_guards by done.
  rewrite app_comm_cons, <- Hl, !bind_run.
  assert (convert_loop svc game_name (Some (l ++ l')) mpc_party server_ips w
          = match convert_loop svc game_name (Some l) mpc_party server_ips w
            with
            | (Ok s', w') =>
                for_each (convert_step svc game_name (Some (l ++ l')) mpc_party
                            server_ips)
                  (seq (length l) (length l')) s' w'
            | (Raise e, w') => (Raise e, w')
            end) as Hloop.
  { unfold convert_loop. rewrite !bind_run. cbn [py_len mret M_ret].
    rewrite length_app, seq_app, for_each_app.
    rewrite (for_each_ext
               (convert_step svc game_name (Some (l ++ l')) mpc_party server_ips)
               (convert_step svc game_name (Some l) mpc_party server_ips)
               (seq 0 (length l))); [done|].
    intros i Hi s w'. apply elem_of_seq in Hi.
    apply step_more_game_args. lia. }
  rewrite Hloop.
  destruct (convert_loop svc game_name (Some l) _ _ w) as [[[bn acc]|e] w1]
    eqn:Hrun; [|done].
  unfold convert_loop in Hrun. rewrite bind_run in Hrun.
  cbn [py_len mret M_ret] in Hrun.
  apply rounds_real in Hrun as (outs & Hn & -> & ->); [|done].
  destruct outs as [|[p cmd] outs]; [subst l; done|].
  cbn [head fmap list_fmap fst].
  intros b' cmds' w''.
  destruct (for_each _ (seq (length l) (length l')) _ w1)
    as [[[bn2 acc2]|e2] w2] eqn:Hrest; [|done].
  apply rounds_real in Hrest as (outs' & _ & -> & ->);
    [|by rewrite length_app].
  intros [= <- <- <-]. split; [done|]. by eexists.
Qed.

(** The game service rejects the second of three containers: the call
    for the first two raises, and so does the call for all three. *)
Lemma more_game_args_extend_the_run_witness :
  convert_cmd_args_list strict_svc "lift" (Some ([f1; no_file] ++ [f2])) SERVER
    None 0
  = (Raise (OtherError "KeyError" "input_filenames"), 2).
Proof.
  apply (more_game_args_extend_the_run strict_svc "lift" [f1; no_file] [f2]
           SERVER None 0).
  discriminate.
Defined.

(** ** A game service without state *)

(** With a game service that is a function of its arguments, containers
    that repeat no keyword of the call, and an address for every
    container when addresses are given (none given is for the server
    party only), the call is a map over the containers: it returns the
    package name for the first container and, at each position, the
    command line for the container and the address at that position, and
    leaves the world as it was. *)
Theorem stateless_call_is_a_map {Value W}
    (f : string → MPCParty → option string → gmap string Value → string * string)
    game_name g (rest : list (gmap string Value)) mpc_party server_ips (w : W) :
  match server_ips with
  | Some a => length (g :: rest) ≤ length a
  | None => mpc_party = SERVER
  end →
  Forall (λ game_arg, repeated_keyword game_arg = None) (g :: rest) →
  let commands :=
    commands_from f game_name mpc_party server_ips 0 (g :: rest) in
  convert_cmd_args_list (stateless_svc f) game_name (Some (g :: rest)) mpc_party
    server_ips w
  = (Ok ((f game_name mpc_party (address server_ips 0) g).1, commands), w) ∧
  length commands = length (g :: rest) ∧
  ∀ i game_arg, (g :: rest) !! i = Some game_arg →
    commands !! i
    = Some (f game_name mpc_party (address server_ips i) game_arg).2.
Proof.
  intros Hips Hkeys commands. split; [|split].
  - rewrite past_guards.
    2:{ intros ->. destruct server_ips as [[|ip a]|]; simpl in Hips; [lia|done..]. }
    rewrite bind_run. unfold convert_loop. rewrite bind_run.
    cbn [py_len mret M_ret].
    rewrite (stateless_rounds f game_name mpc_party server_ips (g :: rest) []).
    + done.
    + intros i Hi. unfold has_address. destruct server_ips; [|done].
      simpl in *. lia.
    + done.
  - apply commands_from_length.
  - intros i ga Hi. by apply commands_from_lookup.
Qed.

(** The address-pairing scenario, as a map. *)
Lemma stateless_call_is_a_map_witness :
  let f := λ (_ : string) (_ : MPCParty) ip (ga : gmap string string),
             ("lift_pkg", echo_cmd ip ga) in
  let commands :=
    commands_from f "lift" CLIENT (Some ["10.0.0.1"; "10.0.0.2"]) 0 [f1; f2] in
  convert_cmd_args_list (stateless_svc f) "lift" (Some [f1; f2]) CLIENT
    (Some ["10.0.0.1"; "10.0.0.2"]) ()
  = (Ok ((f "lift" CLIENT (address (Some ["10.0.0.1"; "10.0.0.2"]) 0) f1).1,
         commands), ()) ∧
  length commands = length [f1; f2] ∧
  ∀ i game_arg, [f1; f2] !! i = Some game_arg →
    commands !! i
    = Some (f "lift" CLIENT (address (Some ["10.0.0.1"; "10.0.0.2"]) i)
              game_arg).2.
Proof.
  intros f.
  apply (stateless_call_is_a_map f "lift" f1 [f2] CLIENT
           (Some ["10.0.0.1"; "10.0.0.2"]) ()).
  - simpl. lia.
  - constructor; [exact f1_keywords|]. constructor; [exact f2_keywords|].
    constructor.
Defined.

(** ** From role to party to call *)

(** For a role the mapper accepts and at least one container, the first
    of which repeats no keyword of the call, a call without addresses is
    turned away before the collaborator is reached exactly for the
    partner; for the publisher the collaborator is reached. *)
Theorem only_partner_needs_addresses {Value W} (svc : MPCGameService Value W)
    game_name g (rest : list (gmap string Value)) w role mpc_party :
  repeated_keyword g = None →
  map_private_computation_role_to_mpc_party role = Ok mpc_party →
  fails_before_any_call
    (convert_cmd_args_list (spy svc) game_name (Some (g :: rest)) mpc_party
       None) w
  ↔ role = Role PARTNER.
Proof.
  intros Hkey Hrole.
  destruct role as [[]|s]; simpl in Hrole; [| |done]; injection Hrole as <-.
  - split; [|done]. intros [_ Hnil]. exfalso.
    destruct (accepted_seen svc game_name SERVER None (g :: rest) w)
      as (_ & _ & Hend); [done..|].
    rewrite Hnil in Hend.
    destruct (convert_cmd_args_list svc _ _ _ _ w).1 as [[b cmds]|e].
    + destruct Hend as (outs & Hlen & Hrs & _). by destruct outs.
    + destruct Hend
        as (outs & _ & [Hrs|[(_ & _ & Hno)|(Hrs & _ & g' & k & Hg & Hk & _)]]).
      * by destruct outs.
      * by destruct Hno.
      * destruct outs; [|done]. simpl in Hg. injection Hg as <-. congruence.
  - split; [done|]. intros _.
    unfold fails_before_any_call, outcome_of, calls_of.
    by rewrite reject_server_ips.
Qed.

Lemma only_partner_needs_addresses_witness :
  fails_before_any_call
    (convert_cmd_args_list (spy (echo_svc "lift_pkg")) "lift" (Some [f1; f2])
       CLIENT None) ()
  ↔ Role PARTNER = Role PARTNER.
Proof.
  apply (only_partner_needs_addresses (echo_svc "lift_pkg") "lift" f1 [f2] ()
           (Role PARTNER) CLIENT).
  - exact f1_keywords.
  - reflexivity.
Defined.
